(** * Box-shaped transit periodogram: a shallow embedding of
      [transit_periodogram.c] and the properties of its specification.

    Conventions of the embedding.
    - A C [double] is an exact rational ([Q]): arithmetic is carried out
      without rounding, and the only non-finite value the code produces on
      purpose, the sentinel [-INFINITY] stored in [best_objective], is the
      extra constructor of [xdouble].
    - A C [int] is an integer ([Z]); the casts [(int)x] truncate towards
      zero.  Element counts ([N], [n_periods], [n_durations]) are naturals.
    - [sqrt] comes from the C math library, not from this repository: it is
      a parameter of the development, together with the one fact about it
      that the proofs use (it is positive on positive arguments).
    - The two work arrays [mean_y] and [mean_ivar] are a [scratch] value
      whose every access is bounds-checked against the allocated block:
      an access outside of it makes the run return [None].
    - The counts passed to the call are the lengths of the arrays, as the
      interface requires: the input arrays are read with [nth] (0 outside
      of the list) and the output arrays are written with list insertion
      (no effect outside of the list).
    - The code is the sequential build (no OpenMP): one thread, block 0. *)

From Stdlib Require Import ZArith QArith Qround Qabs Lia Lqa.
From stdpp Require Import base option list.

Open Scope Q_scope.

(** ** Arithmetic of the C code *)

Module Num.

(** [DBL_EPSILON] of <float.h>: 2^-52. *)
Definition DBL_EPSILON : Q := 1 # 4503599627370496.

(** [x < y] and [x <= y] as the C conditions. *)
Definition Qltb (x y : Q) : bool := (Qnum x * QDen y <? Qnum y * QDen x)%Z.
Definition Qleb (x y : Q) : bool := (Qnum x * QDen y <=? Qnum y * QDen x)%Z.
Definition Qgtb (x y : Q) : bool := Qltb y x.
Definition Qgeb (x y : Q) : bool := Qleb y x.

(** [(int)x]: truncation towards zero. *)
Definition trunc (x : Q) : Z := Z.quot (Qnum x) (Zpos (Qden x)).

(** [round(x)]: nearest integer, halfway cases away from zero. *)
Definition round (x : Q) : Q :=
  if Qleb 0 x then inject_Z (Qfloor (x + 0.5))
  else inject_Z (- Qfloor (- x + 0.5)).

(** [fmod(x, y)]: [x - n*y] where [n] is [x/y] truncated towards zero. *)
Definition fmod (x y : Q) : Q := x - inject_Z (trunc (x / y)) * y.

(** [fabs(x)]. *)
Definition fabs (x : Q) : Q := Qabs x.

(** The values a cell of [best_objective] can hold. *)
Inductive xdouble : Type :=
  | NegInfinity : xdouble
  | Finite (q : Q) : xdouble.

(** [x > b] for a finite [x] and a cell [b]. *)
Definition xgtb (x : Q) (b : xdouble) : bool :=
  match b with
  | NegInfinity => true
  | Finite q => Qgtb x q
  end.

(** [x > b] and [b >= x] as propositions, for the statements. *)
Definition xlt (b : xdouble) (x : Q) : Prop :=
  match b with
  | NegInfinity => True
  | Finite q => q < x
  end.

Definition xge (b : xdouble) (x : Q) : Prop :=
  match b with
  | NegInfinity => False
  | Finite q => x <= q
  end.

End Num.
Import Num.

Infix "<?" := Qltb (at level 70, no associativity) : Q_scope.
Infix "<=?" := Qleb (at level 70, no associativity) : Q_scope.
Infix ">?" := Qgtb (at level 70, no associativity) : Q_scope.
Infix ">=?" := Qgeb (at level 70, no associativity) : Q_scope.

(** ** Loops and arrays *)

(** A [for] loop whose body can fail: the state is threaded through the
    iterations in order, and the first failure ends the loop. *)
Fixpoint for_each {A S : Type} (body : S -> A -> option S) (l : list A) (s : S)
  : option S :=
  match l with
  | [] => Some s
  | x :: l' =>
      match body s x with
      | Some s' => for_each body l' s'
      | None => None
      end
  end.

(** The values of [for (n = lo; n < hi; ++n)]. *)
Definition range (lo hi : Z) : list Z := seqZ lo (hi - lo).

(** Checked read [a[i]] and write [a[i] = v] of a work array. *)
Definition load (a : list Q) (i : Z) : option Q :=
  if (i <? 0)%Z then None else a !! Z.to_nat i.

Definition store (a : list Q) (i : Z) (v : Q) : option (list Q) :=
  if ((0 <=? i) && (i <? Z.of_nat (length a)))%Z
  then Some (<[Z.to_nat i := v]> a)
  else None.

(** The two work arrays of one thread. *)
Record scratch : Type := Scratch {
  mean_y : list Q;
  mean_ivar : list Q
}.

(** The five cells that [compute_objective] writes through its pointers. *)
Record locals : Type := Locals {
  objective : Q;
  log_like : Q;
  depth : Q;
  depth_err : Q;
  depth_snr : Q
}.

(** The seven caller-supplied output arrays. *)
Record outputs : Type := Outputs {
  best_objective : list xdouble;
  best_depth : list Q;
  best_depth_err : list Q;
  best_duration : list Q;
  best_phase : list Q;
  best_depth_snr : list Q;
  best_log_like : list Q
}.

(** The global sums over the whole series. *)
Record baseline : Type := Baseline {
  sum_y2 : Q;
  sum_y : Q;
  sum_ivar : Q
}.

Section Periodogram.

(** [sqrt] of <math.h>. *)
Variable sqrt : Q -> Q.

(** ** [compute_objective] *)

Definition compute_objective
    (y_in y_out ivar_in ivar_out sum_y2 sum_y sum_ivar : Q) (obj_flag : Z)
    (l : locals) : locals :=
  if negb (obj_flag =? 0)%Z then
    let arg := y_in - y_out in
    let chi2 := sum_y2 - 2 * y_out * sum_y in
    let chi2 := chi2 + y_out * y_out * sum_ivar in
    let chi2 := chi2 - arg * arg * ivar_in in
    let log_likelihood := - 0.5 * chi2 in
    {| objective := log_likelihood;
       log_like := log_likelihood;
       depth := depth l;
       depth_err := depth_err l;
       depth_snr := depth_snr l |}
  else
    let depth := y_out - y_in in
    let depth_err := sqrt (1 / ivar_in + 1 / ivar_out) in
    let depth_snr := depth / depth_err in
    {| objective := depth_snr;
       log_like := log_like l;
       depth := depth;
       depth_err := depth_err;
       depth_snr := depth_snr |}.

(** ** [run_transit_periodogram] *)

(** The linear scans for the smallest and the largest element of a grid
    ([xs[0]] first, then [k = 1 .. n-1]). *)
Definition grid_min (n : nat) (xs : list Q) : Q :=
  fold_left (fun m k => if nth k xs 0 <? m then nth k xs 0 else m)
            (seq 1 (n - 1)) (nth 0%nat xs 0).

Definition grid_max (n : nat) (xs : list Q) : Q :=
  fold_left (fun m k => if nth k xs 0 >? m then nth k xs 0 else m)
            (seq 1 (n - 1)) (nth 0%nat xs 0).

(** [durations_index[k]] for every [k < n_durations]. *)
Definition duration_bins (n_durations : nat) (durations : list Q)
    (bin_duration : Q) : list Z :=
  map (fun k =>
         let d := trunc (round (nth k durations 0 / bin_duration)) in
         if (d <=? 0)%Z then 1%Z else d)
      (seq 0 n_durations).

(** The pre-accumulated sums. *)
Definition accumulate (N : nat) (y ivar : list Q) : baseline :=
  fold_left
    (fun b n =>
       let tmp := nth n y 0 * nth n ivar 0 in
       {| sum_y2 := sum_y2 b + nth n y 0 * tmp;
          sum_y := sum_y b + tmp;
          sum_ivar := sum_ivar b + nth n ivar 0 |})
    (seq 0 N) {| sum_y2 := 0; sum_y := 0; sum_ivar := 0 |}.

(** First pass, part one: clear the bins [0 .. n_bins]. *)
Definition clear_bins (n_bins : Z) (w : scratch) : option scratch :=
  for_each
    (fun w n =>
       my ← store (mean_y w) n 0;
       mi ← store (mean_ivar w) n 0;
       Some (Scratch my mi))
    (range 0 (n_bins + 1)) w.

(** The bin of sample [n]. *)
Definition bin_index (tn period bin_duration : Q) : Z :=
  (trunc (fabs (fmod tn period) / bin_duration) + 1)%Z.

(** First pass, part two: add every sample to its bin. *)
Definition bin_samples (N : nat) (t y ivar : list Q) (period bin_duration : Q)
    (w : scratch) : option scratch :=
  for_each
    (fun w n =>
       let ind := bin_index (nth n t 0) period bin_duration in
       a ← load (mean_y w) ind;
       my ← store (mean_y w) ind (a + nth n y 0 * nth n ivar 0);
       b ← load (mean_ivar w) ind;
       mi ← store (mean_ivar w) ind (b + nth n ivar 0);
       Some (Scratch my mi))
    (seq 0 N) w.

(** The wrap-around copy: [n] runs from 1 to [oversample] while [ind]
    runs from [n_bins - oversample] in step with it. *)
Definition wrap_bins (n_bins oversample : Z) (w : scratch) : option scratch :=
  for_each
    (fun w n =>
       let ind := (n_bins - oversample + (n - 1))%Z in
       a ← load (mean_y w) n;
       my ← store (mean_y w) ind a;
       b ← load (mean_ivar w) n;
       mi ← store (mean_ivar w) ind b;
       Some (Scratch my mi))
    (range 1 (oversample + 1)) w.

(** The cumulative sums, in place. *)
Definition cumulate (n_bins : Z) (w : scratch) : option scratch :=
  for_each
    (fun w n =>
       a ← load (mean_y w) n;
       a' ← load (mean_y w) (n - 1);
       my ← store (mean_y w) n (a + a');
       b ← load (mean_ivar w) n;
       b' ← load (mean_ivar w) (n - 1);
       mi ← store (mean_ivar w) n (b + b');
       Some (Scratch my mi))
    (range 1 (n_bins + 1)) w.

(** The sums in the window of [dur] bins that starts at bin [n]. *)
Definition window (w : scratch) (n dur : Z) : option (Q * Q) :=
  a ← load (mean_y w) (n + dur);
  b ← load (mean_y w) n;
  c ← load (mean_ivar w) (n + dur);
  d ← load (mean_ivar w) n;
  Some (a - b, c - d).

(** The skip test of the scanner. *)
Definition skipped (ivar_in ivar_out : Q) : bool :=
  (ivar_in <? DBL_EPSILON) || (ivar_out <? DBL_EPSILON).

(** The writes of an accepted candidate into slot [p] of the outputs. *)
Definition record_best (p : nat) (obj : Q) (l : locals) (dur : Z)
    (n : Z) (bin_duration period : Q) (o : outputs) : outputs :=
  let best_dur := inject_Z dur * bin_duration in
  {| best_objective := <[p := Finite obj]> (best_objective o);
     best_depth := <[p := depth l]> (best_depth o);
     best_depth_err := <[p := depth_err l]> (best_depth_err o);
     best_duration := <[p := best_dur]> (best_duration o);
     best_phase :=
       <[p := fmod (inject_Z n * bin_duration + 0.5 * best_dur) period]>
         (best_phase o);
     best_depth_snr := <[p := depth_snr l]> (best_depth_snr o);
     best_log_like := <[p := log_like l]> (best_log_like o) |}.

(** The body of the inner loop once the window sums are known. *)
Definition consider (b : baseline) (obj_flag : Z) (p : nat)
    (period bin_duration : Q) (dur n : Z) (y_in ivar_in : Q)
    (st : locals * outputs) : locals * outputs :=
  let y_out := sum_y b - y_in in
  let ivar_out := sum_ivar b - ivar_in in
  if skipped ivar_in ivar_out then st
  else
    let y_in := y_in / ivar_in in
    let y_out := y_out / ivar_out in
    let l1 := compute_objective y_in y_out ivar_in ivar_out
                (sum_y2 b) (sum_y b) (sum_ivar b) obj_flag (fst st) in
    if (y_out >=? y_in)
       && xgtb (objective l1) (nth p (best_objective (snd st)) NegInfinity)
    then
      let l2 := compute_objective y_in y_out ivar_in ivar_out
                  (sum_y2 b) (sum_y b) (sum_ivar b)
                  (if (obj_flag =? 0)%Z then 1 else 0)%Z l1 in
      (l2, record_best p (objective l1) l2 dur n bin_duration period (snd st))
    else (l1, snd st).

(** One iteration of the inner loop. *)
Definition scan_candidate (b : baseline) (obj_flag : Z) (p : nat)
    (period bin_duration : Q) (w : scratch) (dur : Z)
    (st : locals * outputs) (n : Z) : option (locals * outputs) :=
  '(y_in, ivar_in) ← window w n dur;
  Some (consider b obj_flag p period bin_duration dur n y_in ivar_in st).

(** One iteration of the loop over the durations. *)
Definition scan_duration (b : baseline) (obj_flag : Z) (p : nat)
    (period bin_duration : Q) (w : scratch) (n_bins : Z)
    (durations_index : list Z)
    (st : locals * outputs) (k : nat) : option (locals * outputs) :=
  let dur := nth k durations_index 0%Z in
  let n_max := (n_bins - dur)%Z in
  for_each (scan_candidate b obj_flag p period bin_duration w dur)
           (range 0 (n_max + 1)) st.

(** The histogram of one period: clear, bin, wrap, cumulate. *)
Definition fold_period (N : nat) (t y ivar : list Q)
    (period bin_duration : Q) (n_bins oversample : Z) (w : scratch)
    : option scratch :=
  w ← clear_bins n_bins w;
  w ← bin_samples N t y ivar period bin_duration w;
  w ← wrap_bins n_bins oversample w;
  cumulate n_bins w.

(** [best_objective[p] = -INFINITY]. *)
Definition reset_best (p : nat) (o : outputs) : outputs :=
  {| best_objective := <[p := NegInfinity]> (best_objective o);
     best_depth := best_depth o;
     best_depth_err := best_depth_err o;
     best_duration := best_duration o;
     best_phase := best_phase o;
     best_depth_snr := best_depth_snr o;
     best_log_like := best_log_like o |}.

(** The scan of one period; the five locals start with whatever they
    hold, [l0]. *)
Definition scan_period (b : baseline) (obj_flag : Z) (p : nat)
    (period bin_duration : Q) (w : scratch) (n_bins : Z)
    (n_durations : nat) (durations_index : list Z) (l0 : locals)
    (o : outputs) : option (locals * outputs) :=
  for_each
    (scan_duration b obj_flag p period bin_duration w n_bins durations_index)
    (seq 0 n_durations) (l0, reset_best p o).

(** The state of that scan just before the candidate with duration index
    [k] and start bin [n]: the durations before [k] are done, and so are
    the start bins before [n] of duration [k]. *)
Definition scan_before (b : baseline) (obj_flag : Z) (p : nat)
    (period bin_duration : Q) (w : scratch) (n_bins : Z)
    (durations_index : list Z) (l0 : locals) (o : outputs)
    (k : nat) (n : Z) : option (locals * outputs) :=
  st ← for_each
         (scan_duration b obj_flag p period bin_duration w n_bins
            durations_index)
         (seq 0 k) (l0, reset_best p o);
  for_each
    (scan_candidate b obj_flag p period bin_duration w
       (nth k durations_index 0%Z))
    (range 0 n) st.

(** The body of the loop over the periods. *)
Definition search_period (N : nat) (t y ivar periods : list Q)
    (b : baseline) (obj_flag oversample : Z) (bin_duration : Q)
    (n_durations : nat) (durations_index : list Z) (l0 : locals)
    (st : scratch * outputs) (p : nat) : option (scratch * outputs) :=
  let period := nth p periods 0 in
  let n_bins := (trunc (period / bin_duration) + oversample)%Z in
  w ← fold_period N t y ivar period bin_duration n_bins oversample (fst st);
  '(_, o) ← scan_period b obj_flag p period bin_duration w n_bins
              n_durations durations_index l0 (snd st);
  Some (w, o).

Section Call.

(** The arguments of one call.  [malloc_ok i] tells whether the [i]-th
    allocation succeeds; [l0] is the indeterminate initial content of the
    five locals of the period loop. *)
Variable malloc_ok : nat -> bool.
Variable l0 : locals.
Variable N : nat.
Variables t y ivar : list Q.
Variable n_periods : nat.
Variable periods : list Q.
Variable n_durations : nat.
Variable durations : list Q.
Variables oversample obj_flag : Z.

Definition max_period : Q := grid_max n_periods periods.
Definition min_period : Q := grid_min n_periods periods.
Definition min_duration : Q := grid_min n_durations durations.
Definition max_duration : Q := grid_max n_durations durations.

Definition bin_duration : Q := min_duration / inject_Z oversample.
Definition max_n_bins : Z :=
  (trunc (max_period / bin_duration) + oversample)%Z.
Definition durations_index : list Z :=
  duration_bins n_durations durations bin_duration.
Definition blocksize : Z := (max_n_bins + 1)%Z.

(** The freshly allocated work arrays.  Their content is indeterminate in
    C; every period clears the bins it uses before it reads them. *)
Definition work0 : scratch :=
  {| mean_y := repeat 0 (Z.to_nat blocksize);
     mean_ivar := repeat 0 (Z.to_nat blocksize) |}.

Definition sums : baseline := accumulate N y ivar.

(** The period and the number of bins of iteration [p]. *)
Definition period (p : nat) : Q := nth p periods 0.
Definition n_bins (p : nat) : Z :=
  (trunc (period p / bin_duration) + oversample)%Z.

(** The whole call.  The result is the returned status and the output
    arrays, or [None] when a work array is accessed outside of its
    block. *)
Definition run_transit_periodogram (out : outputs) : option (Z * outputs) :=
  if min_period <? DBL_EPSILON then Some (1%Z, out)
  else
    if (max_duration >? min_period) || (min_duration <? DBL_EPSILON)
    then Some (2%Z, out)
    else
      if negb (malloc_ok 0%nat) then Some ((-1)%Z, out)
      else if negb (malloc_ok 1%nat) then Some ((-2)%Z, out)
      else if negb (malloc_ok 2%nat) then Some ((-3)%Z, out)
      else
        '(_, o) ← for_each
                    (search_period N t y ivar periods sums obj_flag oversample
                       bin_duration n_durations durations_index l0)
                    (seq 0 n_periods) (work0, out);
        Some (0%Z, o).

(** *** Names for the statements *)

(** Both range checks pass. *)
Definition ranges_valid : Prop :=
  (min_period <? DBL_EPSILON) = false /\
  ((max_duration >? min_period) || (min_duration <? DBL_EPSILON)) = false.

(** All three allocations succeed. *)
Definition allocations_succeed : Prop :=
  malloc_ok 0%nat = true /\ malloc_ok 1%nat = true /\ malloc_ok 2%nat = true.

(** The work arrays as the scanner of period [p] reads them: the block
    after the histograms of the periods [0 .. p] have been built in it,
    one after the other. *)
Definition scratch_at (p : nat) : option scratch :=
  for_each
    (fun w q => fold_period N t y ivar (period q) bin_duration (n_bins q)
                  oversample w)
    (seq 0 (S p)) work0.

(** The window sums of the candidate with duration index [k] and start
    bin [n] at period [p]. *)
Definition candidate (p k : nat) (n : Z) : option (Q * Q) :=
  w ← scratch_at p;
  window w n (nth k durations_index 0%Z).

(** [(k, n)] is scanned at period [p]. *)
Definition scanned (p k : nat) (n : Z) : Prop :=
  (k < n_durations)%nat /\
  (0 <= n <= n_bins p - nth k durations_index 0%Z)%Z.

End Call.

(** The weighted mean fluxes in and out of a window with sums
    [y_in], [ivar_in]. *)
Definition flux_in (y_in ivar_in : Q) : Q := y_in / ivar_in.
Definition flux_out (b : baseline) (y_in ivar_in : Q) : Q :=
  (sum_y b - y_in) / (sum_ivar b - ivar_in).

(** The objective the scanner computes for such a window (it does not
    depend on what the locals hold). *)
Definition score (b : baseline) (obj_flag : Z) (y_in ivar_in : Q) : Q :=
  objective
    (compute_objective (flux_in y_in ivar_in) (flux_out b y_in ivar_in)
       ivar_in (sum_ivar b - ivar_in) (sum_y2 b) (sum_y b) (sum_ivar b)
       obj_flag (Locals 0 0 0 0 0)).

(** The acceptance test of the scanner for such a window, against the
    content [best] of [best_objective[p]]. *)
Definition improves (b : baseline) (obj_flag : Z) (y_in ivar_in : Q)
    (best : xdouble) : Prop :=
  flux_in y_in ivar_in <= flux_out b y_in ivar_in /\
  xlt best (score b obj_flag y_in ivar_in).

(** Slot [p] of the outputs holds the statistics of the window with sums
    [y_in], [ivar_in], of [dur] bins from bin [n] on. *)
Definition recorded (b : baseline) (obj_flag : Z) (p : nat)
    (period bin_duration : Q) (dur n : Z) (y_in ivar_in : Q)
    (o : outputs) : Prop :=
  let f_in := flux_in y_in ivar_in in
  let f_out := flux_out b y_in ivar_in in
  let ivar_out := sum_ivar b - ivar_in in
  let err := sqrt (1 / ivar_in + 1 / ivar_out) in
  nth p (best_objective o) NegInfinity
    = Finite (score b obj_flag y_in ivar_in) /\
  nth p (best_depth o) 0 = f_out - f_in /\
  nth p (best_depth_err o) 0 = err /\
  nth p (best_depth_snr o) 0 = (f_out - f_in) / err /\
  nth p (best_log_like o) 0 ==
    - 0.5 * (sum_y2 b - 2 * f_out * sum_y b + f_out ^ 2 * sum_ivar b
             - (f_in - f_out) ^ 2 * ivar_in) /\
  nth p (best_duration o) 0 = inject_Z dur * bin_duration /\
  nth p (best_phase o) 0
    = fmod (inject_Z n * bin_duration
            + 0.5 * (inject_Z dur * bin_duration)) period.

End Periodogram.

(** ** Notions used by the statements *)

(** [m] is the smallest (largest) of the first [n] elements of a grid. *)
Definition is_min (n : nat) (xs : list Q) (m : Q) : Prop :=
  (exists k, (k < n)%nat /\ nth k xs 0 = m) /\
  (forall k, (k < n)%nat -> m <= nth k xs 0).

Definition is_max (n : nat) (xs : list Q) (m : Q) : Prop :=
  (exists k, (k < n)%nat /\ nth k xs 0 = m) /\
  (forall k, (k < n)%nat -> nth k xs 0 <= m).

(** Candidate [(k1, n1)] comes before [(k2, n2)] in the scan order. *)
Definition precedes (k1 : nat) (n1 : Z) (k2 : nat) (n2 : Z) : Prop :=
  (k1 < k2)%nat \/ (k1 = k2 /\ (n1 < n2)%Z).

(** Slot [p] is inside each of the seven output arrays. *)
Definition slot_allocated (p : nat) (o : outputs) : Prop :=
  (p < length (best_objective o))%nat /\
  (p < length (best_depth o))%nat /\
  (p < length (best_depth_err o))%nat /\
  (p < length (best_duration o))%nat /\
  (p < length (best_phase o))%nat /\
  (p < length (best_depth_snr o))%nat /\
  (p < length (best_log_like o))%nat.

(** Two states of the outputs hold the same values in slot [p]. *)
Definition agree_at (p : nat) (o o' : outputs) : Prop :=
  nth p (best_objective o) NegInfinity = nth p (best_objective o') NegInfinity /\
  nth p (best_depth o) 0 = nth p (best_depth o') 0 /\
  nth p (best_depth_err o) 0 = nth p (best_depth_err o') 0 /\
  nth p (best_duration o) 0 = nth p (best_duration o') 0 /\
  nth p (best_phase o) 0 = nth p (best_phase o') 0 /\
  nth p (best_depth_snr o) 0 = nth p (best_depth_snr o') 0 /\
  nth p (best_log_like o) 0 = nth p (best_log_like o') 0.

(** Two states of the outputs have arrays of the same lengths. *)
Definition same_shape (o o' : outputs) : Prop :=
  length (best_objective o) = length (best_objective o') /\
  length (best_depth o) = length (best_depth o') /\
  length (best_depth_err o) = length (best_depth_err o') /\
  length (best_duration o) = length (best_duration o') /\
  length (best_phase o) = length (best_phase o') /\
  length (best_depth_snr o) = length (best_depth_snr o') /\
  length (best_log_like o) = length (best_log_like o').

(** The invariants of the optimality argument: slot [p] of
    [best_objective] exists, and it holds at least [x]. *)
Definition has_slot (p : nat) (st : locals * outputs) : Prop :=
  (p < length (best_objective (snd st)))%nat.

Definition at_least (p : nat) (x : Q) (st : locals * outputs) : Prop :=
  has_slot p st /\ xge (nth p (best_objective (snd st)) NegInfinity) x.

(** Both work arrays have [L] elements. *)
Definition sized (L : nat) (w : scratch) : Prop :=
  length (mean_y w) = L /\ length (mean_ivar w) = L.

(** The sum of the cells [0 .. i] of an array, and the sum of the [d]
    cells that follow cell [n]. *)
Fixpoint prefix_sum (a : list Q) (i : nat) : Q :=
  match i with
  | O => nth 0%nat a 0
  | S j => nth (S j) a 0 + prefix_sum a j
  end.

Fixpoint bins_total (a : list Q) (n d : nat) : Q :=
  match d with
  | O => 0
  | S d' => bins_total a n d' + nth (n + S d')%nat a 0
  end.

(** The cells [0 .. n_bins] of [mean_ivar] all hold zero. *)
Definition zero_weight_cells (n_bins : Z) (w : scratch) : Prop :=
  forall i, (0 <= i <= n_bins)%Z ->
    exists v, load (mean_ivar w) i = Some v /\ v == 0.

(** Two arrays have the same length and the same content in the cells
    [0 .. n_bins]; two pairs of work arrays do. *)
Definition same_cells (n_bins : Z) (a1 a2 : list Q) : Prop :=
  length a1 = length a2 /\
  forall i, (0 <= i <= n_bins)%Z -> load a1 i = load a2 i.

Definition same_bins (n_bins : Z) (w1 w2 : scratch) : Prop :=
  same_cells n_bins (mean_y w1) (mean_y w2) /\
  same_cells n_bins (mean_ivar w1) (mean_ivar w2).

Definition same_size (w1 w2 : scratch) : Prop :=
  length (mean_y w1) = length (mean_y w2) /\
  length (mean_ivar w1) = length (mean_ivar w2).

(** ** Concrete data for the examples *)

Module Sample.

(** A computable square root on [Q]: exact on the squares of rationals,
    rounded down to a multiple of the denominator's inverse elsewhere. *)
Definition sqrt (x : Q) : Q := Z.sqrt (Qnum x * QDen x) # Qden x.

(** Every allocation succeeds. *)
Definition malloc_ok (_ : nat) : bool := true.

(** Some content for the locals and for the output arrays before the
    call. *)
Definition l0 : locals := Locals 9 9 9 9 9.
Definition out0 (n : nat) : outputs :=
  Outputs (repeat (Finite 7) n) (repeat 7 n) (repeat 7 n) (repeat 7 n)
          (repeat 7 n) (repeat 7 n) (repeat 7 n).

(** Three samples, one per unit of time; the middle one is brighter than
    the others.  One period of 3, one duration of 1, [oversample = 1]:
    the bins are one unit wide. *)
Definition t3 : list Q := [0; 1; 2].
Definition y3 : list Q := [1; 3; 0].
Definition ivar3 : list Q := [1; 1; 1].
Definition periods3 : list Q := [3].
Definition durations3 : list Q := [1].

(** The work arrays of that call when its only period is scanned. *)
Definition w3 : scratch := Scratch [0; 1; 4; 5; 5] [0; 1; 2; 3; 3].

(** Two samples of which the first is the brighter one: no window of the
    scan is a dip. *)
Definition t2 : list Q := [0; 1].
Definition y2 : list Q := [2; 1].
Definition ivar2 : list Q := [1; 1].
Definition periods2 : list Q := [2].

(** Four samples half a unit apart, a period of 2, a duration of 1 and
    [oversample = 2]: the bins are half a unit wide and [n_bins = 6]. *)
Definition t4 : list Q := [0; 0.5; 1; 1.5].
Definition y4 : list Q := [1; 2; 4; 8].
Definition ivar4 : list Q := [1; 1; 1; 1].

End Sample.

(** * Properties *)

(** ** The comparisons *)

Lemma Qltb_true (x y : Q) : (x <? y) = true <-> x < y.
Proof. unfold Qltb, Qlt. apply Z.ltb_lt. Qed.

Lemma Qltb_false (x y : Q) : (x <? y) = false <-> y <= x.
Proof. unfold Qltb, Qle. rewrite Z.ltb_ge. reflexivity. Qed.

Lemma Qleb_true (x y : Q) : (x <=? y) = true <-> x <= y.
Proof. unfold Qleb, Qle. apply Z.leb_le. Qed.

Lemma Qleb_false (x y : Q) : (x <=? y) = false <-> y < x.
Proof. unfold Qleb, Qlt. rewrite Z.leb_gt. reflexivity. Qed.

Lemma Qgtb_true (x y : Q) : (x >? y) = true <-> y < x.
Proof. apply Qltb_true. Qed.

Lemma Qgtb_false (x y : Q) : (x >? y) = false <-> x <= y.
Proof. apply Qltb_false. Qed.

Lemma Qgeb_true (x y : Q) : (x >=? y) = true <-> y <= x.
Proof. apply Qleb_true. Qed.

Lemma Qgeb_false (x y : Q) : (x >=? y) = false <-> x < y.
Proof. apply Qleb_false. Qed.

Lemma DBL_EPSILON_pos : 0 < DBL_EPSILON.
Proof. reflexivity. Qed.

Lemma xgtb_true (x : Q) (b : xdouble) :
  xgtb x b = true <-> match b with NegInfinity => True | Finite q => q < x end.
Proof. destruct b; simpl; [tauto | apply Qgtb_true]. Qed.

Lemma xgtb_false (x : Q) (b : xdouble) : xgtb x b = false <-> xge b x.
Proof.
  destruct b; simpl; [split; [discriminate | tauto] | apply Qgtb_false].
Qed.

Lemma xge_trans (b : xdouble) (x x' : Q) : xge b x -> x' <= x -> xge b x'.
Proof. destruct b; simpl; [tauto | intros; lra]. Qed.

Lemma not_skipped (ivar_in ivar_out : Q) :
  skipped ivar_in ivar_out = false <->
  DBL_EPSILON <= ivar_in /\ DBL_EPSILON <= ivar_out.
Proof.
  unfold skipped. rewrite orb_false_iff, !Qltb_false. reflexivity.
Qed.

Lemma Qdiv_nonneg_iff (x e : Q) : 0 < e -> (0 <= x / e <-> 0 <= x).
Proof.
  intros He. split; intros H.
  - assert (E : x == x / e * e) by (field; lra).
    rewrite E. apply Qmult_le_0_compat; lra.
  - apply Qle_shift_div_l; lra.
Qed.

Lemma Qinv_sum_pos (a c : Q) : 0 < a -> 0 < c -> 0 < 1 / a + 1 / c.
Proof.
  intros Ha Hc.
  assert (0 < 1 / a) by (apply Qlt_shift_div_l; lra).
  assert (0 < 1 / c) by (apply Qlt_shift_div_l; lra).
  lra.
Qed.

Lemma Qdiv_le_mono (a a' c : Q) : 0 < c -> a <= a' -> a / c <= a' / c.
Proof.
  intros Hc H. apply Qle_shift_div_l; [exact Hc |].
  assert (E : a / c * c == a) by (field; lra). rewrite E. exact H.
Qed.

Lemma Qdiv_pos (a c : Q) : 0 < a -> 0 < c -> 0 < a / c.
Proof. intros Ha Hc. apply Qlt_shift_div_l; lra. Qed.

Lemma inject_Z_pos (z : Z) : (1 <= z)%Z -> 0 < inject_Z z.
Proof. intros H. unfold Qlt. simpl. lia. Qed.

(** ** Truncation and [fmod] *)

Lemma trunc_floor (x : Q) : 0 <= x -> trunc x = Qfloor x.
Proof.
  destruct x as [n d]. unfold Qle, trunc, Qfloor. simpl. intros H.
  apply Z.quot_div_nonneg; lia.
Qed.

Lemma trunc_opp (x : Q) : trunc (- x) = (- trunc x)%Z.
Proof. destruct x as [n d]. unfold trunc. simpl. apply Z.quot_opp_l. lia. Qed.

Lemma trunc_nonneg (x : Q) : 0 <= x -> (0 <= trunc x)%Z.
Proof.
  intros H. rewrite trunc_floor by exact H.
  change 0%Z with (Qfloor 0). apply Qfloor_resp_le, H.
Qed.

Lemma trunc_mono (x x' : Q) : 0 <= x -> x <= x' -> (trunc x <= trunc x')%Z.
Proof.
  intros H0 H. rewrite !trunc_floor by lra. apply Qfloor_resp_le, H.
Qed.

(** [(int)x] is less than one away from [x]. *)
Lemma trunc_near (x : Q) :
  - (1) < x - inject_Z (trunc x) /\ x - inject_Z (trunc x) < 1.
Proof.
  destruct (Qlt_le_dec x 0) as [Hneg | Hpos].
  - assert (E : trunc x = (- Qfloor (- x))%Z).
    { rewrite <- (trunc_floor (- x)) by lra. rewrite trunc_opp. lia. }
    rewrite E. pose proof (Qfloor_le (- x)). pose proof (Qlt_floor (- x)).
    rewrite inject_Z_opp. rewrite inject_Z_plus in *. change (inject_Z 1) with 1 in *. lra.
  - rewrite trunc_floor by exact Hpos.
    pose proof (Qfloor_le x). pose proof (Qlt_floor x).
    rewrite inject_Z_plus in *. change (inject_Z 1) with 1 in *. lra.
Qed.

(** The remainder is smaller than the divisor. *)
Lemma fmod_bound (x m : Q) : 0 < m -> fabs (fmod x m) < m.
Proof.
  intros Hm. unfold fabs, fmod. apply Qabs_Qlt_condition.
  destruct (trunc_near (x / m)) as [Hlo Hhi].
  set (T := inject_Z (trunc (x / m))) in *.
  assert (E : x - T * m == (x / m - T) * m) by (field; lra).
  rewrite E. split; nra.
Qed.

(** Every sample falls into one of the bins [1 .. trunc(period/bin) + 1]. *)
Lemma bin_index_bounds (tn period bin_duration : Q) :
  0 < period -> 0 < bin_duration ->
  (1 <= bin_index tn period bin_duration
     <= trunc (period / bin_duration) + 1)%Z.
Proof.
  intros HP Hb. unfold bin_index.
  pose proof (fmod_bound tn period HP) as Hlt.
  assert (H0 : 0 <= fabs (fmod tn period)) by apply Qabs_nonneg.
  assert (H1 : 0 <= fabs (fmod tn period) / bin_duration)
    by (apply Qle_shift_div_l; lra).
  assert (H2 : fabs (fmod tn period) / bin_duration <= period / bin_duration).
  { apply Qle_shift_div_l; [exact Hb |].
    assert (E : fabs (fmod tn period) / bin_duration * bin_duration
                == fabs (fmod tn period)) by (field; lra).
    rewrite E. lra. }
  pose proof (trunc_nonneg _ H1). pose proof (trunc_mono _ _ H1 H2). lia.
Qed.

(** ** Loops *)

Lemma for_each_app {A S : Type} (body : S -> A -> option S) (l1 l2 : list A)
    (s : S) :
  for_each body (l1 ++ l2) s =
  match for_each body l1 s with
  | Some s' => for_each body l2 s'
  | None => None
  end.
Proof.
  revert s. induction l1 as [| x l1 IH]; intros s; simpl; [reflexivity |].
  destruct (body s x); [apply IH | reflexivity].
Qed.

(** A property that every iteration preserves holds when the loop ends. *)
Lemma for_each_inv {A S : Type} (P : S -> Prop) (body : S -> A -> option S)
    (l : list A) (s s' : S) :
  (forall s x s1, x ∈ l -> P s -> body s x = Some s1 -> P s1) ->
  P s -> for_each body l s = Some s' -> P s'.
Proof.
  revert s. induction l as [| x l IH]; intros s Hstep Hs Hrun; simpl in Hrun.
  - congruence.
  - destruct (body s x) as [s1 |] eqn:Hb; [| discriminate].
    apply (IH s1); [| | exact Hrun].
    + intros s2 x2 s3 Hin. apply Hstep. right. exact Hin.
    + apply (Hstep s x); [left | |]; assumption.
Qed.

(** A loop whose iterations all succeed under an invariant succeeds. *)
Lemma for_each_total {A S : Type} (P : S -> Prop) (body : S -> A -> option S)
    (l : list A) (s : S) :
  P s ->
  (forall s x, x ∈ l -> P s -> exists s1, body s x = Some s1 /\ P s1) ->
  exists s', for_each body l s = Some s' /\ P s'.
Proof.
  revert s. induction l as [| x l IH]; intros s Hs Hstep; simpl.
  - exists s. split; [reflexivity | assumption].
  - destruct (Hstep s x) as (s1 & Hb & Hs1); [left | assumption |].
    rewrite Hb. apply IH; [assumption |].
    intros s2 x2 Hin. apply Hstep. right. exact Hin.
Qed.

Lemma elem_of_range (lo hi n : Z) : n ∈ range lo hi <-> (lo <= n < hi)%Z.
Proof. unfold range. rewrite elem_of_seqZ. lia. Qed.

Lemma range_split (lo m hi : Z) :
  (lo <= m < hi)%Z -> range lo hi = range lo m ++ m :: range (m + 1) hi.
Proof.
  intros H. unfold range.
  replace (hi - lo)%Z with ((m - lo) + (hi - m))%Z by lia.
  rewrite seqZ_app by lia. f_equal.
  replace (lo + (m - lo))%Z with m by lia.
  rewrite seqZ_cons by lia. f_equal. f_equal; lia.
Qed.

Lemma seq_split (k n : nat) :
  (k < n)%nat -> seq 0 n = seq 0 k ++ k :: seq (S k) (n - k - 1).
Proof.
  intros H. replace n with (k + S (n - k - 1))%nat at 1 by lia.
  rewrite seq_app. reflexivity.
Qed.

(** ** The grid scans *)

Lemma grid_min_prefix (xs : list Q) (j : nat) :
  let m := fold_left (fun m k => if nth k xs 0 <? m then nth k xs 0 else m)
             (seq 1 j) (nth 0%nat xs 0) in
  (exists k, (k <= j)%nat /\ nth k xs 0 = m) /\
  (forall k, (k <= j)%nat -> m <= nth k xs 0).
Proof.
  cbv zeta. induction j as [| j [(k0 & Hk0 & Hm) Hle]].
  - simpl. split; [exists 0%nat; split; [lia | reflexivity] |].
    intros k Hk. replace k with 0%nat by lia. lra.
  - rewrite seq_S, fold_left_app. simpl.
    set (m := fold_left _ (seq 1 j) _) in *.
    destruct (nth (S j) xs 0 <? m) eqn:Hc.
    + apply Qltb_true in Hc. split; [exists (S j); split; [lia | reflexivity] |].
      intros k Hk. destruct (decide (k = S j)) as [-> | Hne]; [lra |].
      specialize (Hle k ltac:(lia)). lra.
    + apply Qltb_false in Hc. split; [exists k0; split; [lia | exact Hm] |].
      intros k Hk. destruct (decide (k = S j)) as [-> | Hne]; [exact Hc |].
      apply Hle. lia.
Qed.

Lemma grid_max_prefix (xs : list Q) (j : nat) :
  let m := fold_left (fun m k => if nth k xs 0 >? m then nth k xs 0 else m)
             (seq 1 j) (nth 0%nat xs 0) in
  (exists k, (k <= j)%nat /\ nth k xs 0 = m) /\
  (forall k, (k <= j)%nat -> nth k xs 0 <= m).
Proof.
  cbv zeta. induction j as [| j [(k0 & Hk0 & Hm) Hle]].
  - simpl. split; [exists 0%nat; split; [lia | reflexivity] |].
    intros k Hk. replace k with 0%nat by lia. lra.
  - rewrite seq_S, fold_left_app. simpl.
    set (m := fold_left _ (seq 1 j) _) in *.
    destruct (nth (S j) xs 0 >? m) eqn:Hc.
    + apply Qgtb_true in Hc. split; [exists (S j); split; [lia | reflexivity] |].
      intros k Hk. destruct (decide (k = S j)) as [-> | Hne]; [lra |].
      specialize (Hle k ltac:(lia)). lra.
    + apply Qgtb_false in Hc. split; [exists k0; split; [lia | exact Hm] |].
      intros k Hk. destruct (decide (k = S j)) as [-> | Hne]; [exact Hc |].
      apply Hle. lia.
Qed.

Lemma grid_min_is_min (n : nat) (xs : list Q) :
  (0 < n)%nat -> is_min n xs (grid_min n xs).
Proof.
  intros Hn. destruct (grid_min_prefix xs (n - 1)) as [(k & Hk & Hm) Hle].
  split.
  - exists k. split; [lia | exact Hm].
  - intros k' Hk'. apply Hle. lia.
Qed.

Lemma grid_max_is_max (n : nat) (xs : list Q) :
  (0 < n)%nat -> is_max n xs (grid_max n xs).
Proof.
  intros Hn. destruct (grid_max_prefix xs (n - 1)) as [(k & Hk & Hm) Hle].
  split.
  - exists k. split; [lia | exact Hm].
  - intros k' Hk'. apply Hle. lia.
Qed.

Lemma is_min_unique (n : nat) (xs : list Q) (m m' : Q) :
  is_min n xs m -> is_min n xs m' -> m == m'.
Proof.
  intros [(k & Hk & <-) Hle] [(k' & Hk' & <-) Hle'].
  specialize (Hle k' Hk'). specialize (Hle' k Hk). lra.
Qed.

Lemma is_max_unique (n : nat) (xs : list Q) (m m' : Q) :
  is_max n xs m -> is_max n xs m' -> m == m'.
Proof.
  intros [(k & Hk & <-) Hle] [(k' & Hk' & <-) Hle'].
  specialize (Hle k' Hk'). specialize (Hle' k Hk). lra.
Qed.

(** ** [compute_objective] *)

Section Evaluator.

Variable sqrt : Q -> Q.

(** C2. With [obj_flag] nonzero the evaluator sets [log_likelihood] to
    [-0.5*(sum_y2 - 2*y_out*sum_y + y_out^2*sum_ivar - (y_in-y_out)^2*ivar_in)]
    and [objective] to that value; with [obj_flag = 0] it sets
    [depth = y_out - y_in], [depth_err = sqrt(1/ivar_in + 1/ivar_out)],
    [depth_snr = depth/depth_err] and [objective = depth_snr]. *)
Theorem compute_objective_formulas
    (y_in y_out ivar_in ivar_out s2 s1 s0 : Q) (obj_flag : Z) (l : locals) :
  0 < ivar_in -> 0 < ivar_out ->
  let r := compute_objective sqrt y_in y_out ivar_in ivar_out s2 s1 s0
             obj_flag l in
  (obj_flag <> 0%Z ->
     log_like r ==
       - 0.5 * (s2 - 2 * y_out * s1 + y_out ^ 2 * s0
                - (y_in - y_out) ^ 2 * ivar_in) /\
     objective r = log_like r) /\
  (obj_flag = 0%Z ->
     depth r = y_out - y_in /\
     depth_err r = sqrt (1 / ivar_in + 1 / ivar_out) /\
     depth_snr r = depth r / depth_err r /\
     objective r = depth_snr r).
Proof.
  intros _ _ r. subst r. unfold compute_objective. split.
  - intros Hf. apply Z.eqb_neq in Hf. rewrite Hf. simpl. split; [ring | reflexivity].
  - intros ->. simpl. repeat split.
Qed.

(** C10. With [obj_flag] nonzero the evaluator leaves [depth], [depth_err]
    and [depth_snr] as they were; with [obj_flag = 0] it leaves
    [log_likelihood] as it was.  So the second call of the scanner, made
    with the opposite flag, keeps what the first call wrote and fills in
    the rest. *)
Theorem compute_objective_frame
    (y_in y_out ivar_in ivar_out s2 s1 s0 : Q) (obj_flag : Z) (l : locals) :
  let r := compute_objective sqrt y_in y_out ivar_in ivar_out s2 s1 s0
             obj_flag l in
  let r2 := compute_objective sqrt y_in y_out ivar_in ivar_out s2 s1 s0
              (if (obj_flag =? 0)%Z then 1 else 0)%Z r in
  (obj_flag <> 0%Z ->
     depth r = depth l /\ depth_err r = depth_err l /\
     depth_snr r = depth_snr l /\
     log_like r2 = log_like r) /\
  (obj_flag = 0%Z ->
     log_like r = log_like l /\
     depth r2 = depth r /\ depth_err r2 = depth_err r /\
     depth_snr r2 = depth_snr r).
Proof.
  intros r r2. subst r r2. unfold compute_objective. split.
  - intros Hf. apply Z.eqb_neq in Hf. rewrite Hf. simpl. repeat split.
  - intros ->. simpl. repeat split.
Qed.

End Evaluator.

(** ** Range validation *)

Section Validation.

Variable sqrt : Q -> Q.
Variable malloc_ok : nat -> bool.
Variable l0 : locals.
Variable N : nat.
Variables t y ivar : list Q.
Variable n_periods : nat.
Variable periods : list Q.
Variable n_durations : nat.
Variable durations : list Q.
Variables oversample obj_flag : Z.

Local Abbreviation run :=
  (run_transit_periodogram sqrt malloc_ok l0 N t y ivar n_periods periods
     n_durations durations oversample obj_flag).

(** The status is decided by the range checks and the allocations alone,
    and the outputs are returned as they came on every status but 0. *)
Lemma run_status (out : outputs) (st : Z) (o : outputs) :
  run out = Some (st, o) ->
  (st = 1%Z /\ o = out /\ min_period n_periods periods < DBL_EPSILON) \/
  (st = 2%Z /\ o = out /\ ~ min_period n_periods periods < DBL_EPSILON /\
     (min_period n_periods periods < max_duration n_durations durations \/
      min_duration n_durations durations < DBL_EPSILON)) \/
  ((st < 0)%Z /\ o = out /\
     ranges_valid n_periods periods n_durations durations /\
     ~ allocations_succeed malloc_ok) \/
  (st = 0%Z /\ ranges_valid n_periods periods n_durations durations /\
     allocations_succeed malloc_ok).
Proof.
  unfold run_transit_periodogram, ranges_valid, allocations_succeed.
  destruct (min_period n_periods periods <? DBL_EPSILON) eqn:H1.
  { intros [= <- <-]. left. apply Qltb_true in H1. auto. }
  assert (Hn1 : ~ min_period n_periods periods < DBL_EPSILON).
  { apply Qltb_false in H1. lra. }
  destruct (_ || _) eqn:H2.
  { intros [= <- <-]. right. left. repeat split; try assumption.
    apply orb_true_iff in H2 as [H2 | H2].
    - left. apply Qgtb_true in H2. exact H2.
    - right. apply Qltb_true in H2. exact H2. }
  destruct (malloc_ok 0%nat) eqn:M0; simpl.
  2:{ intros [= <- <-]. right. right. left.
      split; [lia |]. split; [reflexivity |]. split; [split; reflexivity |].
      intros (A0 & A1 & A2); congruence. }
  destruct (malloc_ok 1%nat) eqn:M1; simpl.
  2:{ intros [= <- <-]. right. right. left.
      split; [lia |]. split; [reflexivity |]. split; [split; reflexivity |].
      intros (A0 & A1 & A2); congruence. }
  destruct (malloc_ok 2%nat) eqn:M2; simpl.
  2:{ intros [= <- <-]. right. right. left.
      split; [lia |]. split; [reflexivity |]. split; [split; reflexivity |].
      intros (A0 & A1 & A2); congruence. }
  destruct (for_each _ _ _) as [[w o'] |]; simpl; [| discriminate].
  intros [= <- <-]. right. right. right. repeat split.
Qed.

(** C3. The call returns status 1 exactly when the smallest period is
    below machine epsilon; otherwise it returns status 2 exactly when the
    largest duration exceeds the smallest period or the smallest duration
    is below machine epsilon; and whenever the status is not 0, the seven
    output arrays are as the caller supplied them. *)
Theorem range_validation (out : outputs) (mp md Md : Q) :
  (0 < n_periods)%nat -> (0 < n_durations)%nat ->
  is_min n_periods periods mp ->
  is_min n_durations durations md ->
  is_max n_durations durations Md ->
  ((exists o, run out = Some (1%Z, o)) <-> mp < DBL_EPSILON) /\
  ((exists o, run out = Some (2%Z, o)) <->
     ~ mp < DBL_EPSILON /\ (mp < Md \/ md < DBL_EPSILON)) /\
  (forall st o, run out = Some (st, o) -> st <> 0%Z -> o = out).
Proof.
  intros Hnp Hnd Hmp Hmd HMd.
  assert (Emp : mp == min_period n_periods periods)
    by (eapply is_min_unique; [eassumption | apply grid_min_is_min, Hnp]).
  assert (Emd : md == min_duration n_durations durations)
    by (eapply is_min_unique; [eassumption | apply grid_min_is_min, Hnd]).
  assert (EMd : Md == max_duration n_durations durations)
    by (eapply is_max_unique; [eassumption | apply grid_max_is_max, Hnd]).
  rewrite Emp, Emd, EMd. clear Hmp Hmd HMd Emp Emd EMd mp md Md.
  split; [| split].
  - split.
    + intros [o Hr]. apply run_status in Hr.
      destruct Hr as [(_ & _ & H) | [(? & _) | [(? & _) | (? & _)]]];
        [exact H | lia ..].
    + intros H. exists out. unfold run_transit_periodogram.
      apply Qltb_true in H. rewrite H. reflexivity.
  - split.
    + intros [o Hr]. apply run_status in Hr.
      destruct Hr as [(? & _) | [(_ & _ & H) | [(? & _) | (? & _)]]];
        [lia | exact H | lia ..].
    + intros [H1 H2]. exists out. unfold run_transit_periodogram.
      destruct (_ <? _) eqn:E1; [apply Qltb_true in E1; contradiction |].
      destruct (_ || _) eqn:E2; [reflexivity |].
      apply orb_false_iff in E2 as [E2 E3].
      apply Qgtb_false in E2. apply Qltb_false in E3.
      unfold max_duration, min_period, min_duration in *. lra.
  - intros st o Hr Hst. apply run_status in Hr.
    destruct Hr as [(_ & H & _) | [(_ & H & _) | [(_ & H & _) | (? & _)]]];
      [exact H .. | contradiction].
Qed.

End Validation.

(** ** Arrays *)

Lemma nth_insert_eq {A : Type} (l : list A) (i : nat) (v d : A) :
  (i < length l)%nat -> nth i (<[i := v]> l) d = v.
Proof.
  intros Hi. rewrite nth_lookup, list_lookup_insert_eq by exact Hi. reflexivity.
Qed.

Lemma nth_insert_ne {A : Type} (l : list A) (i j : nat) (v d : A) :
  i <> j -> nth i (<[j := v]> l) d = nth i l d.
Proof.
  intros Hne. rewrite !nth_lookup, list_lookup_insert_ne by congruence.
  reflexivity.
Qed.

Lemma same_shape_refl (o : outputs) : same_shape o o.
Proof. unfold same_shape. tauto. Qed.

Lemma same_shape_trans (o1 o2 o3 : outputs) :
  same_shape o1 o2 -> same_shape o2 o3 -> same_shape o1 o3.
Proof. unfold same_shape. intuition congruence. Qed.

Lemma agree_at_refl (p : nat) (o : outputs) : agree_at p o o.
Proof. unfold agree_at. tauto. Qed.

Lemma agree_at_trans (p : nat) (o1 o2 o3 : outputs) :
  agree_at p o1 o2 -> agree_at p o2 o3 -> agree_at p o1 o3.
Proof. unfold agree_at. intuition congruence. Qed.

Lemma same_shape_slot (p : nat) (o o' : outputs) :
  same_shape o o' -> slot_allocated p o -> slot_allocated p o'.
Proof. unfold same_shape, slot_allocated. intuition lia. Qed.

(** ** Accesses to the work arrays *)

Lemma store_ok (a : list Q) (i : Z) (v : Q) :
  (0 <= i < Z.of_nat (length a))%Z ->
  store a i v = Some (<[Z.to_nat i := v]> a).
Proof.
  intros H. unfold store.
  destruct (0 <=? i)%Z eqn:E1; [| lia].
  destruct (i <? Z.of_nat (length a))%Z eqn:E2; [reflexivity | lia].
Qed.

Lemma load_ok (a : list Q) (i : Z) :
  (0 <= i < Z.of_nat (length a))%Z -> exists v, load a i = Some v.
Proof.
  intros H. unfold load. destruct (i <? 0)%Z eqn:E; [lia |].
  apply lookup_lt_is_Some_2. lia.
Qed.

Lemma load_store_eq (a a' : list Q) (i : Z) (v : Q) :
  store a i v = Some a' -> load a' i = Some v.
Proof.
  unfold store, load.
  destruct (0 <=? i)%Z eqn:E1; [| discriminate].
  destruct (i <? Z.of_nat (length a))%Z eqn:E2; [| discriminate].
  simpl. intros [= <-]. destruct (i <? 0)%Z eqn:E3; [lia |].
  apply list_lookup_insert_eq. lia.
Qed.

Lemma load_store_ne (a a' : list Q) (i j : Z) (v : Q) :
  store a i v = Some a' -> i <> j -> load a' j = load a j.
Proof.
  unfold store, load.
  destruct (0 <=? i)%Z eqn:E1; [| discriminate].
  destruct (i <? Z.of_nat (length a))%Z eqn:E2; [| discriminate].
  simpl. intros [= <-] Hne. destruct (j <? 0)%Z eqn:E3; [reflexivity |].
  apply list_lookup_insert_ne. lia.
Qed.

(** *** Where the wrap-around copy writes *)

Lemma wrap_step_inv (n_bins oversample n : Z) (w w' : scratch) :
  (a ← load (mean_y w) n;
   my ← store (mean_y w) (n_bins - oversample + (n - 1)) a;
   c ← load (mean_ivar w) n;
   mi ← store (mean_ivar w) (n_bins - oversample + (n - 1)) c;
   Some (Scratch my mi)) = Some w' ->
  exists a c,
    load (mean_y w) n = Some a /\ load (mean_ivar w) n = Some c /\
    store (mean_y w) (n_bins - oversample + (n - 1)) a = Some (mean_y w') /\
    store (mean_ivar w) (n_bins - oversample + (n - 1)) c
      = Some (mean_ivar w').
Proof.
  destruct (load (mean_y w) n) as [a |]; simpl; [| discriminate].
  destruct (store (mean_y w) _ a) as [my |] eqn:Sy; simpl; [| discriminate].
  destruct (load (mean_ivar w) n) as [c |]; simpl; [| discriminate].
  destruct (store (mean_ivar w) _ c) as [mi |] eqn:Si; simpl;
    [| discriminate].
  intros [= <-]. exists a, c. simpl. auto.
Qed.

(** A cell that none of the iterations [ns] writes keeps its content. *)
Lemma wrap_keeps (n_bins oversample i : Z) (ns : list Z) (w w' : scratch) :
  (forall n, n ∈ ns -> (n_bins - oversample + (n - 1))%Z <> i) ->
  for_each
    (fun w n =>
       let ind := (n_bins - oversample + (n - 1))%Z in
       a ← load (mean_y w) n;
       my ← store (mean_y w) ind a;
       b ← load (mean_ivar w) n;
       mi ← store (mean_ivar w) ind b;
       Some (Scratch my mi)) ns w = Some w' ->
  load (mean_y w') i = load (mean_y w) i /\
  load (mean_ivar w') i = load (mean_ivar w) i.
Proof.
  intros Hns.
  apply (for_each_inv
           (fun w1 => load (mean_y w1) i = load (mean_y w) i /\
                      load (mean_ivar w1) i = load (mean_ivar w) i));
    [| split; reflexivity].
  intros w1 n w2 Hn [Hy Hi] Hstep. cbv zeta in Hstep.
  apply wrap_step_inv in Hstep as (a & c & _ & _ & Sy & Si).
  rewrite (load_store_ne _ _ _ _ _ Sy (Hns n Hn)).
  rewrite (load_store_ne _ _ _ _ _ Si (Hns n Hn)). split; assumption.
Qed.

(** The copy never writes the last position, [n_bins], and it overwrites
    position [n_bins - oversample] with the content of bin 1. *)
Lemma wrap_bins_positions (n_bins oversample : Z) (w w' : scratch) :
  (1 <= oversample)%Z ->
  wrap_bins n_bins oversample w = Some w' ->
  (load (mean_y w') n_bins = load (mean_y w) n_bins /\
   load (mean_ivar w') n_bins = load (mean_ivar w) n_bins) /\
  (load (mean_y w') (n_bins - oversample) = load (mean_y w) 1 /\
   load (mean_ivar w') (n_bins - oversample) = load (mean_ivar w) 1).
Proof.
  intros Hos Hrun. split.
  - eapply wrap_keeps; [| exact Hrun].
    intros n Hn. apply elem_of_range in Hn. lia.
  - unfold wrap_bins in Hrun.
    rewrite (range_split 1 1 (oversample + 1)) in Hrun by lia.
    replace (range 1 1) with (@nil Z) in Hrun by reflexivity.
    cbn [app for_each] in Hrun.
    destruct (_ ≫= _) as [w1 |] eqn:E1 in Hrun; [| discriminate].
    apply wrap_step_inv in E1 as (a & c & La & Lc & Sy & Si).
    destruct (wrap_keeps n_bins oversample (n_bins - oversample)
                (range (1 + 1) (oversample + 1)) w1 w') as [Hy Hi];
      [| exact Hrun |].
    + intros n Hn. apply elem_of_range in Hn. lia.
    + rewrite Hy, Hi, La, Lc.
      replace (n_bins - oversample + (1 - 1))%Z
        with (n_bins - oversample)%Z in Sy, Si by lia.
      split; eapply load_store_eq; eassumption.
Qed.

Section Histogram.

Variable L : nat.

Lemma clear_bins_ok (n_bins : Z) (w : scratch) :
  sized L w -> (n_bins < Z.of_nat L)%Z ->
  exists w', clear_bins n_bins w = Some w' /\ sized L w'.
Proof.
  intros Hw Hn. unfold clear_bins. apply for_each_total; [exact Hw |].
  intros [my mi] n Hin [Hy Hi]. simpl in *. apply elem_of_range in Hin.
  rewrite !store_ok by lia. simpl. eexists. split; [reflexivity |].
  split; simpl; rewrite length_insert; assumption.
Qed.

Lemma bin_samples_ok (N : nat) (t y ivar : list Q) (period bin_duration : Q)
    (n_bins : Z) (w : scratch) :
  sized L w -> (n_bins < Z.of_nat L)%Z ->
  (forall n, (1 <= bin_index (nth n t 0%Q) period bin_duration <= n_bins)%Z) ->
  exists w', bin_samples N t y ivar period bin_duration w = Some w' /\
             sized L w'.
Proof.
  intros Hw Hn Hidx. unfold bin_samples. apply for_each_total; [exact Hw |].
  intros [my mi] n _ [Hy Hi]. simpl in *. specialize (Hidx n).
  destruct (load_ok my (bin_index (nth n t 0) period bin_duration))
    as [a ->]; [lia |].
  destruct (load_ok mi (bin_index (nth n t 0) period bin_duration))
    as [c ->]; [lia |].
  simpl. rewrite !store_ok by lia. simpl. eexists. split; [reflexivity |].
  split; simpl; rewrite length_insert; assumption.
Qed.

Lemma wrap_bins_ok (n_bins oversample : Z) (w : scratch) :
  sized L w -> (n_bins < Z.of_nat L)%Z -> (oversample <= n_bins)%Z ->
  exists w', wrap_bins n_bins oversample w = Some w' /\ sized L w'.
Proof.
  intros Hw Hn Hos. unfold wrap_bins. apply for_each_total; [exact Hw |].
  intros [my mi] n Hin [Hy Hi]. simpl in *. apply elem_of_range in Hin.
  destruct (load_ok my n) as [a ->]; [lia |].
  destruct (load_ok mi n) as [c ->]; [lia |].
  simpl. rewrite !store_ok by lia. simpl. eexists. split; [reflexivity |].
  split; simpl; rewrite length_insert; assumption.
Qed.

Lemma cumulate_ok (n_bins : Z) (w : scratch) :
  sized L w -> (n_bins < Z.of_nat L)%Z ->
  exists w', cumulate n_bins w = Some w' /\ sized L w'.
Proof.
  intros Hw Hn. unfold cumulate. apply for_each_total; [exact Hw |].
  intros [my mi] n Hin [Hy Hi]. simpl in *. apply elem_of_range in Hin.
  destruct (load_ok my n) as [a ->]; [lia |].
  destruct (load_ok my (n - 1)) as [a' ->]; [lia |].
  destruct (load_ok mi n) as [c ->]; [lia |].
  destruct (load_ok mi (n - 1)) as [c' ->]; [lia |].
  simpl. rewrite !store_ok by lia. simpl. eexists. split; [reflexivity |].
  split; simpl; rewrite length_insert; assumption.
Qed.

Lemma fold_period_ok (N : nat) (t y ivar : list Q) (period bin_duration : Q)
    (n_bins oversample : Z) (w : scratch) :
  sized L w -> (n_bins < Z.of_nat L)%Z -> (oversample <= n_bins)%Z ->
  (forall n, (1 <= bin_index (nth n t 0%Q) period bin_duration <= n_bins)%Z) ->
  exists w', fold_period N t y ivar period bin_duration n_bins oversample w
             = Some w' /\ sized L w'.
Proof.
  intros Hw Hn Hos Hidx. unfold fold_period.
  destruct (clear_bins_ok n_bins w Hw Hn) as (w1 & -> & H1). simpl.
  destruct (bin_samples_ok N t y ivar period bin_duration n_bins w1 H1 Hn Hidx)
    as (w2 & -> & H2). simpl.
  destruct (wrap_bins_ok n_bins oversample w2 H2 Hn Hos) as (w3 & -> & H3).
  simpl. apply cumulate_ok; assumption.
Qed.

Lemma window_ok (w : scratch) (n d : Z) :
  sized L w -> (0 <= n)%Z -> (0 <= d)%Z -> (n + d < Z.of_nat L)%Z ->
  exists r, window w n d = Some r.
Proof.
  intros [Hy Hi] Hn Hd Hlt. unfold window.
  destruct (load_ok (mean_y w) (n + d)) as [a ->]; [lia |].
  destruct (load_ok (mean_y w) n) as [a' ->]; [lia |].
  destruct (load_ok (mean_ivar w) (n + d)) as [c ->]; [lia |].
  destruct (load_ok (mean_ivar w) n) as [c' ->]; [lia |].
  simpl. eauto.
Qed.

End Histogram.

(** ** The scanner: one candidate *)

Section Candidate.

Variable sqrt : Q -> Q.
Variable b : baseline.
Variable obj_flag : Z.
Variable p : nat.
Variables period bin_duration : Q.

Local Abbreviation consider' :=
  (consider sqrt b obj_flag p period bin_duration).
Local Abbreviation score' := (score sqrt b obj_flag).
Local Abbreviation improves' := (improves sqrt b obj_flag).
Local Abbreviation recorded' :=
  (recorded sqrt b obj_flag p period bin_duration).
Local Abbreviation best st := (nth p (best_objective (snd st)) NegInfinity).

Lemma objective_score (y_in ivar_in : Q) (l : locals) :
  objective
    (compute_objective sqrt (flux_in y_in ivar_in) (flux_out b y_in ivar_in)
       ivar_in (sum_ivar b - ivar_in) (sum_y2 b) (sum_y b) (sum_ivar b)
       obj_flag l)
  = score' y_in ivar_in.
Proof.
  unfold score, compute_objective.
  destruct (negb (obj_flag =? 0)%Z); reflexivity.
Qed.

(** The two calls of the evaluator together fill in all the statistics. *)
Lemma dual_call (y_in y_out ivar_in ivar_out s2 s1 s0 : Q) (l : locals) :
  let l2 :=
    compute_objective sqrt y_in y_out ivar_in ivar_out s2 s1 s0
      (if (obj_flag =? 0)%Z then 1 else 0)%Z
      (compute_objective sqrt y_in y_out ivar_in ivar_out s2 s1 s0
         obj_flag l) in
  depth l2 = y_out - y_in /\
  depth_err l2 = sqrt (1 / ivar_in + 1 / ivar_out) /\
  depth_snr l2 = (y_out - y_in) / sqrt (1 / ivar_in + 1 / ivar_out) /\
  log_like l2 ==
    - 0.5 * (s2 - 2 * y_out * s1 + y_out ^ 2 * s0
             - (y_in - y_out) ^ 2 * ivar_in).
Proof.
  unfold compute_objective.
  destruct (obj_flag =? 0)%Z; simpl; repeat split; ring.
Qed.

Lemma accept_test (y_in ivar_in : Q) (best : xdouble) :
  (flux_out b y_in ivar_in >=? flux_in y_in ivar_in)
  && xgtb (score' y_in ivar_in) best = true
  <-> improves' y_in ivar_in best.
Proof.
  unfold improves.
  rewrite andb_true_iff, Qgeb_true, xgtb_true. reflexivity.
Qed.

Lemma consider_skipped (dur n : Z) (y_in ivar_in : Q) (st : locals * outputs) :
  skipped ivar_in (sum_ivar b - ivar_in) = true ->
  consider' dur n y_in ivar_in st = st.
Proof. intros H. unfold consider. rewrite H. reflexivity. Qed.

Lemma consider_accepted (dur n : Z) (y_in ivar_in : Q)
    (st : locals * outputs) :
  skipped ivar_in (sum_ivar b - ivar_in) = false ->
  improves' y_in ivar_in (best st) ->
  exists l2,
    (l2 = compute_objective sqrt (flux_in y_in ivar_in)
            (flux_out b y_in ivar_in) ivar_in (sum_ivar b - ivar_in)
            (sum_y2 b) (sum_y b) (sum_ivar b)
            (if (obj_flag =? 0)%Z then 1 else 0)%Z
            (compute_objective sqrt (flux_in y_in ivar_in)
               (flux_out b y_in ivar_in) ivar_in (sum_ivar b - ivar_in)
               (sum_y2 b) (sum_y b) (sum_ivar b) obj_flag (fst st))) /\
    consider' dur n y_in ivar_in st =
      (l2, record_best p (score' y_in ivar_in) l2 dur n bin_duration period
             (snd st)).
Proof.
  intros Hs Hi. apply accept_test in Hi. eexists. split; [reflexivity |].
  unfold consider. rewrite Hs.
  fold (flux_in y_in ivar_in). fold (flux_out b y_in ivar_in).
  rewrite !objective_score, Hi. reflexivity.
Qed.

Lemma consider_rejected (dur n : Z) (y_in ivar_in : Q)
    (st : locals * outputs) :
  ~ improves' y_in ivar_in (best st) ->
  snd (consider' dur n y_in ivar_in st) = snd st.
Proof.
  intros Hi. unfold consider.
  destruct (skipped _ _); [reflexivity |].
  fold (flux_in y_in ivar_in). fold (flux_out b y_in ivar_in).
  rewrite !objective_score.
  destruct (_ && _) eqn:E; [| reflexivity].
  apply accept_test in E. contradiction.
Qed.

Lemma improves_dec (y_in ivar_in : Q) (best : xdouble) :
  improves' y_in ivar_in best \/ ~ improves' y_in ivar_in best.
Proof.
  destruct ((flux_out b y_in ivar_in >=? flux_in y_in ivar_in)
            && xgtb (score' y_in ivar_in) best) eqn:E.
  - left. apply accept_test, E.
  - right. intros H. apply accept_test in H. congruence.
Qed.

(** What an accepted candidate leaves in slot [p]. *)
Lemma consider_records
    (dur n : Z) (y_in ivar_in : Q) (st : locals * outputs) :
  slot_allocated p (snd st) ->
  skipped ivar_in (sum_ivar b - ivar_in) = false ->
  improves' y_in ivar_in (best st) ->
  recorded' dur n y_in ivar_in (snd (consider' dur n y_in ivar_in st)).
Proof.
  intros (H1 & H2 & H3 & H4 & H5 & H6 & H7) Hs Hi.
  destruct (consider_accepted dur n y_in ivar_in st Hs Hi) as (l2 & El2 & ->).
  destruct (dual_call (flux_in y_in ivar_in) (flux_out b y_in ivar_in)
              ivar_in (sum_ivar b - ivar_in) (sum_y2 b) (sum_y b)
              (sum_ivar b) (fst st)) as (D1 & D2 & D3 & D4).
  cbv zeta in D1, D2, D3, D4. rewrite <- El2 in D1, D2, D3, D4.
  unfold recorded, record_best. simpl.
  rewrite !nth_insert_eq by assumption.
  repeat split; assumption.
Qed.

Lemma consider_shape (dur n : Z) (y_in ivar_in : Q) (st : locals * outputs) :
  same_shape (snd st) (snd (consider' dur n y_in ivar_in st)).
Proof.
  unfold consider, same_shape. destruct (skipped _ _); [tauto |].
  destruct (_ && _); simpl; rewrite ?length_insert; tauto.
Qed.

Lemma consider_length (dur n : Z) (y_in ivar_in : Q) (st : locals * outputs) :
  length (best_objective (snd (consider' dur n y_in ivar_in st)))
  = length (best_objective (snd st)).
Proof. symmetry. apply consider_shape. Qed.

(** A candidate only writes into slot [p]. *)
Lemma consider_frame (q : nat) (dur n : Z) (y_in ivar_in : Q)
    (st : locals * outputs) :
  q <> p -> agree_at q (snd st) (snd (consider' dur n y_in ivar_in st)).
Proof.
  intros Hq. unfold consider, agree_at. destruct (skipped _ _); [tauto |].
  destruct (_ && _); simpl; rewrite ?nth_insert_ne by exact Hq; tauto.
Qed.

Lemma best_after_acceptance (dur n : Z) (y_in ivar_in : Q)
    (st : locals * outputs) :
  (p < length (best_objective (snd st)))%nat ->
  skipped ivar_in (sum_ivar b - ivar_in) = false ->
  improves' y_in ivar_in (best st) ->
  best (consider' dur n y_in ivar_in st) = Finite (score' y_in ivar_in).
Proof.
  intros Hp Hs Hi.
  destruct (consider_accepted dur n y_in ivar_in st Hs Hi) as (l2 & _ & ->).
  simpl. apply nth_insert_eq, Hp.
Qed.

(** The content of [best_objective[p]] never decreases. *)
Lemma consider_mono (dur n : Z) (y_in ivar_in : Q) (st : locals * outputs)
    (x : Q) :
  (p < length (best_objective (snd st)))%nat ->
  xge (best st) x ->
  xge (best (consider' dur n y_in ivar_in st)) x.
Proof.
  intros Hp Hx.
  destruct (improves_dec y_in ivar_in (best st)) as [Hi | Hn].
  - destruct (skipped ivar_in (sum_ivar b - ivar_in)) eqn:Hs.
    + rewrite consider_skipped by exact Hs. exact Hx.
    + rewrite best_after_acceptance by assumption.
      destruct Hi as [_ Hi]. destruct (best st); simpl in *; [tauto | lra].
  - rewrite consider_rejected by exact Hn. exact Hx.
Qed.

(** After a dip that is not skipped, [best_objective[p]] is at least its
    objective. *)
Lemma consider_reaches (dur n : Z) (y_in ivar_in : Q)
    (st : locals * outputs) :
  (p < length (best_objective (snd st)))%nat ->
  skipped ivar_in (sum_ivar b - ivar_in) = false ->
  flux_in y_in ivar_in <= flux_out b y_in ivar_in ->
  xge (best (consider' dur n y_in ivar_in st)) (score' y_in ivar_in).
Proof.
  intros Hp Hs Hd.
  destruct (improves_dec y_in ivar_in (best st)) as [Hi | Hn].
  - rewrite best_after_acceptance by assumption. simpl. lra.
  - rewrite consider_rejected by exact Hn.
    unfold improves in Hn. destruct (best st); simpl in *; [tauto | lra].
Qed.

(** The outputs change exactly when the acceptance test passes. *)
Lemma acceptance_iff (dur n : Z) (y_in ivar_in : Q) (st : locals * outputs) :
  (p < length (best_objective (snd st)))%nat ->
  skipped ivar_in (sum_ivar b - ivar_in) = false ->
  snd (consider' dur n y_in ivar_in st) <> snd st
  <-> improves' y_in ivar_in (best st).
Proof.
  intros Hp Hs. split.
  - intros Hne. destruct (improves_dec y_in ivar_in (best st)) as [Hi | Hn];
      [exact Hi |].
    exfalso. apply Hne. apply consider_rejected, Hn.
  - intros Hi Heq.
    pose proof (best_after_acceptance dur n y_in ivar_in st Hp Hs Hi) as Hb.
    rewrite Heq in Hb. destruct Hi as [_ Hi]. rewrite Hb in Hi.
    simpl in Hi. lra.
Qed.

(** C7. When a candidate is accepted, slot [p] of the outputs receives its
    objective, the depth, its error and its signal-to-noise ratio, the
    log-likelihood, the duration [durations_index[k] * bin_duration] and
    the phase [fmod(n*bin_duration + best_duration/2, period)], whatever
    [obj_flag] is: the second call of the evaluator, with the opposite
    flag, supplies the statistics that the first one left out. *)
Theorem acceptance_records_both_statistics
    (dur n : Z) (y_in ivar_in : Q) (st : locals * outputs) :
  slot_allocated p (snd st) ->
  skipped ivar_in (sum_ivar b - ivar_in) = false ->
  flux_in y_in ivar_in <= flux_out b y_in ivar_in ->
  xlt (best st) (score' y_in ivar_in) ->
  recorded' dur n y_in ivar_in (snd (consider' dur n y_in ivar_in st)).
Proof.
  intros Hslot Hs Hd Hlt. apply consider_records; [assumption .. |].
  split; assumption.
Qed.

End Candidate.

(** ** The scanner: the loops of one period *)

Section Scan.

Variable sqrt : Q -> Q.
Variable b : baseline.
Variable obj_flag : Z.
Variable p : nat.
Variables period bin_duration : Q.
Variable w : scratch.
Variable n_bins : Z.
Variable durations_index : list Z.

Local Abbreviation dur k := (nth k durations_index 0%Z).
Local Abbreviation consider' :=
  (consider sqrt b obj_flag p period bin_duration).
Local Abbreviation score' := (score sqrt b obj_flag).
Local Abbreviation improves' := (improves sqrt b obj_flag).
Local Abbreviation scan_candidate' :=
  (scan_candidate sqrt b obj_flag p period bin_duration w).
Local Abbreviation scan_duration' :=
  (scan_duration sqrt b obj_flag p period bin_duration w n_bins
     durations_index).
Local Abbreviation scan_before' :=
  (scan_before sqrt b obj_flag p period bin_duration w n_bins
     durations_index).
Local Abbreviation best st := (nth p (best_objective (snd st)) NegInfinity).

Lemma scan_candidate_inv (d n : Z) (st st' : locals * outputs) :
  scan_candidate' d st n = Some st' ->
  exists y_in ivar_in,
    window w n d = Some (y_in, ivar_in) /\
    st' = consider' d n y_in ivar_in st.
Proof.
  unfold scan_candidate.
  destruct (window w n d) as [[y_in ivar_in] |]; simpl; [| discriminate].
  intros [= <-]. eauto.
Qed.

(** A property that every candidate preserves is preserved by the loop
    over the start bins and by the loop over the durations. *)
Lemma start_bins_inv (P : locals * outputs -> Prop) (d : Z) (ns : list Z)
    (st st' : locals * outputs) :
  (forall st n y_in ivar_in,
      n ∈ ns -> window w n d = Some (y_in, ivar_in) ->
      P st -> P (consider' d n y_in ivar_in st)) ->
  P st -> for_each (scan_candidate' d) ns st = Some st' -> P st'.
Proof.
  intros Hstep. apply for_each_inv.
  intros s n s1 Hn Hs Hb.
  apply scan_candidate_inv in Hb as (y_in & ivar_in & Hw & ->).
  eapply Hstep; eassumption.
Qed.

Lemma durations_inv (P : locals * outputs -> Prop) (ks : list nat)
    (st st' : locals * outputs) :
  (forall st k n y_in ivar_in,
      k ∈ ks -> (0 <= n <= n_bins - dur k)%Z ->
      window w n (dur k) = Some (y_in, ivar_in) ->
      P st -> P (consider' (dur k) n y_in ivar_in st)) ->
  P st -> for_each scan_duration' ks st = Some st' -> P st'.
Proof.
  intros Hstep. apply for_each_inv.
  intros s k s1 Hk Hs Hb. unfold scan_duration in Hb.
  eapply start_bins_inv; [| exact Hs | exact Hb].
  intros s2 n y_in ivar_in Hn. apply Hstep; [exact Hk |].
  apply elem_of_range in Hn. lia.
Qed.

Lemma has_slot_step (d n : Z) (y_in ivar_in : Q) (st : locals * outputs) :
  has_slot p st -> has_slot p (consider' d n y_in ivar_in st).
Proof. unfold has_slot. rewrite consider_length. tauto. Qed.

Lemma at_least_step (x : Q) (d n : Z) (y_in ivar_in : Q)
    (st : locals * outputs) :
  at_least p x st -> at_least p x (consider' d n y_in ivar_in st).
Proof.
  intros [Hp Hx]. split; [apply has_slot_step; exact Hp |].
  apply consider_mono; assumption.
Qed.

(** Once the start bin [n1] of a dip has been passed, the invariant holds
    for its objective. *)
Lemma start_bins_reach (d n1 hi : Z) (y_in ivar_in : Q)
    (st st' : locals * outputs) :
  has_slot p st ->
  (0 <= n1 < hi)%Z ->
  window w n1 d = Some (y_in, ivar_in) ->
  skipped ivar_in (sum_ivar b - ivar_in) = false ->
  flux_in y_in ivar_in <= flux_out b y_in ivar_in ->
  for_each (scan_candidate' d) (range 0 hi) st = Some st' ->
  at_least p (score' y_in ivar_in) st'.
Proof.
  intros Hp Hn Hw Hs Hd. rewrite (range_split 0 n1 hi) by lia.
  rewrite for_each_app.
  destruct (for_each _ (range 0 n1) st) as [s1 |] eqn:E1; [| discriminate].
  assert (H1 : has_slot p s1).
  { eapply start_bins_inv; [| exact Hp | exact E1].
    intros; apply has_slot_step; assumption. }
  simpl. unfold scan_candidate at 1. rewrite Hw. simpl.
  apply start_bins_inv.
  - intros; apply at_least_step; assumption.
  - split; [apply has_slot_step; exact H1 |].
    apply consider_reaches; assumption.
Qed.

(** The same across the loop over the durations: at the point just before
    candidate [(k2, n2)], every dip scanned earlier is dominated. *)
Lemma scan_before_reach (l0 : locals) (o : outputs) (k1 k2 : nat)
    (n1 n2 : Z) (y_in ivar_in : Q) (st : locals * outputs) :
  (p < length (best_objective o))%nat ->
  precedes k1 n1 k2 n2 ->
  (0 <= n1 <= n_bins - dur k1)%Z ->
  window w n1 (dur k1) = Some (y_in, ivar_in) ->
  skipped ivar_in (sum_ivar b - ivar_in) = false ->
  flux_in y_in ivar_in <= flux_out b y_in ivar_in ->
  scan_before' l0 o k2 n2 = Some st ->
  at_least p (score' y_in ivar_in) st.
Proof.
  intros Hp Hprec Hn Hw Hs Hd. unfold scan_before.
  assert (H0 : has_slot p (l0, reset_best p o)).
  { unfold has_slot. simpl. rewrite length_insert. exact Hp. }
  destruct Hprec as [Hk | [-> Hlt]].
  - rewrite (seq_split k1 k2) by exact Hk. rewrite for_each_app.
    destruct (for_each _ (seq 0 k1) _) as [s1 |] eqn:E1; [| discriminate].
    assert (H1 : has_slot p s1).
    { eapply durations_inv; [| exact H0 | exact E1].
      intros; apply has_slot_step; assumption. }
    simpl. unfold scan_duration at 1.
    destruct (for_each _ (range 0 _) s1) as [s2 |] eqn:E2; [| discriminate].
    assert (H2 : at_least p (score' y_in ivar_in) s2).
    { eapply (start_bins_reach (dur k1) n1); try eassumption. lia. }
    destruct (for_each _ (seq (S k1) _) s2) as [s3 |] eqn:E3; [| discriminate].
    assert (H3 : at_least p (score' y_in ivar_in) s3).
    { eapply durations_inv; [| exact H2 | exact E3].
      intros; apply at_least_step; assumption. }
    simpl. apply start_bins_inv; [| exact H3].
    intros; apply at_least_step; assumption.
  - destruct (for_each _ (seq 0 k2) _) as [s1 |] eqn:E1; [| discriminate].
    assert (H1 : has_slot p s1).
    { eapply durations_inv; [| exact H0 | exact E1].
      intros; apply has_slot_step; assumption. }
    simpl. apply (start_bins_reach (dur k2) n1 n2); try assumption. lia.
Qed.

Lemma scan_period_before (n_durations : nat) (l0 : locals) (o : outputs) :
  scan_period sqrt b obj_flag p period bin_duration w n_bins n_durations
    durations_index l0 o
  = scan_before' l0 o n_durations 0.
Proof.
  unfold scan_period, scan_before.
  destruct (for_each _ _ _); reflexivity.
Qed.

(** The scan reads the work arrays only at indices up to [n_bins]. *)
Lemma scan_period_ok (L n_durations : nat) (l0 : locals) (o : outputs) :
  sized L w -> (n_bins < Z.of_nat L)%Z ->
  (forall k, (k < n_durations)%nat -> (1 <= dur k)%Z) ->
  exists st,
    scan_period sqrt b obj_flag p period bin_duration w n_bins n_durations
      durations_index l0 o = Some st.
Proof.
  intros Hw Hn Hdur. unfold scan_period.
  destruct (for_each_total (fun _ => True) scan_duration'
              (seq 0 n_durations) (l0, reset_best p o) I) as (st & Hst & _);
    [| exists st; exact Hst].
  intros s k Hk _. apply elem_of_seq in Hk. unfold scan_duration.
  apply for_each_total; [exact I |].
  intros s1 n Hin _. apply elem_of_range in Hin.
  specialize (Hdur k ltac:(lia)). unfold scan_candidate.
  destruct (window_ok L w n (dur k) Hw) as [[y_in ivar_in] ->]; [lia .. |].
  simpl. eauto.
Qed.

(** What the scan of one period leaves in slot [p]: the sentinel, or the
    statistics of a dip that was not skipped. *)
Lemma scan_period_outcome (n_durations : nat) (l0 : locals) (o : outputs)
    (st : locals * outputs) :
  slot_allocated p o ->
  scan_period sqrt b obj_flag p period bin_duration w n_bins n_durations
    durations_index l0 o = Some st ->
  slot_allocated p (snd st) /\
  (best st = NegInfinity \/
   exists d n y_in ivar_in,
     skipped ivar_in (sum_ivar b - ivar_in) = false /\
     flux_in y_in ivar_in <= flux_out b y_in ivar_in /\
     recorded sqrt b obj_flag p period bin_duration d n y_in ivar_in
       (snd st)).
Proof.
  intros Hslot. unfold scan_period.
  apply (durations_inv
           (fun st =>
              slot_allocated p (snd st) /\
              (best st = NegInfinity \/
               exists d n y_in ivar_in,
                 skipped ivar_in (sum_ivar b - ivar_in) = false /\
                 flux_in y_in ivar_in <= flux_out b y_in ivar_in /\
                 recorded sqrt b obj_flag p period bin_duration d n y_in
                   ivar_in (snd st)))).
  - intros s k n y_in ivar_in _ _ _ [Hs Hcase].
    assert (Hs' : slot_allocated p (snd (consider' (dur k) n y_in ivar_in s)))
      by (eapply same_shape_slot; [apply consider_shape | exact Hs]).
    split; [exact Hs' |].
    destruct (improves_dec sqrt b obj_flag y_in ivar_in (best s)) as [Hi | Hn].
    + destruct (skipped ivar_in (sum_ivar b - ivar_in)) eqn:Hsk.
      * rewrite consider_skipped by exact Hsk. exact Hcase.
      * right. exists (dur k), n, y_in, ivar_in.
        split; [exact Hsk |]. split; [apply Hi |].
        apply consider_records; assumption.
    + rewrite consider_rejected by exact Hn. exact Hcase.
  - destruct Hslot as (H1 & H2). split.
    + unfold slot_allocated, reset_best. simpl. rewrite length_insert. tauto.
    + left. simpl. apply nth_insert_eq, H1.
Qed.

(** When no candidate can be accepted, the sentinel stays. *)
Lemma scan_period_sentinel (n_durations : nat) (l0 : locals) (o : outputs)
    (st : locals * outputs) :
  (p < length (best_objective o))%nat ->
  (forall k n y_in ivar_in,
      (k < n_durations)%nat -> (0 <= n <= n_bins - dur k)%Z ->
      window w n (dur k) = Some (y_in, ivar_in) ->
      skipped ivar_in (sum_ivar b - ivar_in) = true \/
      flux_out b y_in ivar_in < flux_in y_in ivar_in) ->
  scan_period sqrt b obj_flag p period bin_duration w n_bins n_durations
    durations_index l0 o = Some st ->
  best st = NegInfinity.
Proof.
  intros Hp Hall. unfold scan_period.
  apply (durations_inv (fun st => best st = NegInfinity)).
  - intros s k n y_in ivar_in Hk Hn Hw Hb.
    apply elem_of_seq in Hk.
    destruct (Hall k n y_in ivar_in ltac:(lia) Hn Hw) as [Hsk | Hbr].
    + rewrite consider_skipped by exact Hsk. exact Hb.
    + rewrite consider_rejected; [exact Hb |]. intros [Hd _]. lra.
  - simpl. apply nth_insert_eq, Hp.
Qed.


End Scan.

(** ** The loop over the periods *)

Section Periods.

Variable sqrt : Q -> Q.
Variable malloc_ok : nat -> bool.
Variable l0 : locals.
Variable N : nat.
Variables t y ivar : list Q.
Variable n_periods : nat.
Variable periods : list Q.
Variable n_durations : nat.
Variable durations : list Q.
Variables oversample obj_flag : Z.

Local Abbreviation run :=
  (run_transit_periodogram sqrt malloc_ok l0 N t y ivar n_periods periods
     n_durations durations oversample obj_flag).
Local Abbreviation bd := (bin_duration n_durations durations oversample).
Local Abbreviation didx := (durations_index n_durations durations oversample).
Local Abbreviation b := (sums N y ivar).
Local Abbreviation P p := (period periods p).
Local Abbreviation nb p :=
  (n_bins periods n_durations durations oversample p).
Local Abbreviation fold_nth :=
  (fun w q => fold_period N t y ivar (P q) bd (nb q) oversample w).
Local Abbreviation search :=
  (search_period sqrt N t y ivar periods b obj_flag oversample bd n_durations
     didx l0).
Local Abbreviation scan p w :=
  (scan_period sqrt b obj_flag p (P p) bd w (nb p) n_durations didx l0).
Local Abbreviation scratch_at' :=
  (scratch_at N t y ivar n_periods periods n_durations durations oversample).
Local Abbreviation candidate' :=
  (candidate N t y ivar n_periods periods n_durations durations oversample).
Local Abbreviation scanned' :=
  (scanned periods n_durations durations oversample).

(** The scan of period [p] keeps the shape of the outputs and only writes
    into slot [p]. *)
Lemma scan_period_frame (p : nat) (w : scratch) (o : outputs)
    (l' : locals) (o' : outputs) :
  scan p w o = Some (l', o') ->
  same_shape o o' /\ forall q, q <> p -> agree_at q o o'.
Proof.
  unfold scan_period. intros H.
  eapply (durations_inv sqrt b obj_flag p (P p) bd w (nb p) didx
            (fun st => same_shape o (snd st) /\
                       forall q, q <> p -> agree_at q o (snd st)))
    in H; [exact H | |].
  - intros st k n y_in ivar_in _ _ _ [Hs Ha]. split.
    + eapply same_shape_trans; [exact Hs | apply consider_shape].
    + intros q Hq. eapply agree_at_trans; [apply Ha, Hq |].
      apply consider_frame, Hq.
  - split.
    + unfold same_shape, reset_best. simpl. rewrite length_insert. tauto.
    + intros q Hq. unfold agree_at, reset_best. simpl.
      rewrite nth_insert_ne by exact Hq. tauto.
Qed.

Lemma search_period_inv (w : scratch) (o : outputs) (p : nat)
    (w' : scratch) (o' : outputs) :
  search (w, o) p = Some (w', o') ->
  fold_nth w p = Some w' /\ exists l', scan p w' o = Some (l', o').
Proof.
  unfold search_period, period, n_bins. simpl.
  destruct (fold_period _ _ _ _ _ _ _ _ w) as [w1 |]; simpl; [| discriminate].
  destruct (scan_period _ _ _ _ _ _ _ _ _ _ _ _) as [[l1 o1] |] eqn:E; simpl;
    [| discriminate].
  intros [= <- <-]. split; [reflexivity | exists l1; exact E].
Qed.

(** What the loop over the periods does, period by period. *)
Lemma periods_loop (n : nat) (w : scratch) (o : outputs)
    (w' : scratch) (o' : outputs) :
  for_each search (seq 0 n) (w, o) = Some (w', o') ->
  for_each fold_nth (seq 0 n) w = Some w' /\
  same_shape o o' /\
  forall p, (p < n)%nat ->
    exists w_p o_p l_p o_p',
      for_each fold_nth (seq 0 (S p)) w = Some w_p /\
      same_shape o o_p /\
      scan p w_p o_p = Some (l_p, o_p') /\
      agree_at p o_p' o'.
Proof.
  revert w' o'. induction n as [| n IH]; intros w' o'.
  - simpl. intros [= <- <-]. split; [reflexivity |].
    split; [apply same_shape_refl |]. intros p Hp. lia.
  - intros H. rewrite seq_S, for_each_app in H.
    destruct (for_each search (seq 0 n) (w, o)) as [[w1 o1] |] eqn:E;
      [| discriminate].
    destruct (IH w1 o1 eq_refl) as (Hf & Hs & Hp).
    cbn [for_each Nat.add] in H.
    destruct (search (w1, o1) n) as [[w2 o2] |] eqn:E2; [| discriminate].
    injection H as <- <-.
    apply search_period_inv in E2 as (Hf2 & l2 & Hscan).
    destruct (scan_period_frame n w2 o1 l2 o2 Hscan) as [Hs2 Ha2].
    assert (Hf3 : for_each fold_nth (seq 0 (S n)) w = Some w2).
    { rewrite seq_S, for_each_app, Hf. cbn [for_each Nat.add].
      rewrite Hf2. reflexivity. }
    split; [exact Hf3 |].
    split; [eapply same_shape_trans; eassumption |].
    intros p Hlt. destruct (decide (p = n)) as [-> | Hne].
    + exists w2, o1, l2, o2.
      split; [exact Hf3 |]. split; [exact Hs |]. split; [exact Hscan |].
      apply agree_at_refl.
    + destruct (Hp p ltac:(lia)) as (w_p & o_p & l_p & o_p' & A & B & C & D).
      exists w_p, o_p, l_p, o_p'.
      split; [exact A |]. split; [exact B |]. split; [exact C |].
      eapply agree_at_trans; [exact D | apply Ha2, Hne].
Qed.

Lemma run_zero (out out' : outputs) :
  run out = Some (0%Z, out') ->
  exists w', for_each search (seq 0 n_periods)
               (work0 n_periods periods n_durations durations oversample, out)
             = Some (w', out').
Proof.
  unfold run_transit_periodogram.
  destruct (_ <? _); [discriminate |].
  destruct (_ || _); [discriminate |].
  destruct (negb (malloc_ok 0%nat)); [discriminate |].
  destruct (negb (malloc_ok 1%nat)); [discriminate |].
  destruct (negb (malloc_ok 2%nat)); [discriminate |].
  destruct (for_each _ _ _) as [[w' o'] |]; simpl; [| discriminate].
  intros [= <-]. eauto.
Qed.

(** After a successful call, slot [p] of the outputs is what the scan of
    period [p] left there, and that scan read the work arrays
    [scratch_at p]. *)
Lemma run_period (out out' : outputs) (p : nat) :
  run out = Some (0%Z, out') ->
  (p < n_periods)%nat ->
  exists w_p o_p l_p o_p',
    scratch_at' p = Some w_p /\
    same_shape out o_p /\
    scan p w_p o_p = Some (l_p, o_p') /\
    agree_at p o_p' out'.
Proof.
  intros Hrun Hp. apply run_zero in Hrun as [w' Hrun].
  apply periods_loop in Hrun as (_ & _ & H). exact (H p Hp).
Qed.

(** *** The indices of the work arrays *)

Lemma durations_index_ge_1 (k : nat) :
  (k < n_durations)%nat -> (1 <= nth k didx 0)%Z.
Proof.
  intros Hk. unfold durations_index, duration_bins.
  set (f := fun k : nat => _).
  rewrite (nth_indep _ 0%Z (f 0%nat))
    by (rewrite length_map, length_seq; exact Hk).
  rewrite map_nth, seq_nth by exact Hk. unfold f. simpl.
  destruct (_ <=? 0)%Z eqn:E; lia.
Qed.

Lemma valid_bin_duration :
  ranges_valid n_periods periods n_durations durations ->
  (1 <= oversample)%Z -> 0 < bd.
Proof.
  intros [_ V] Hos. apply orb_false_iff in V as [_ V].
  apply Qltb_false in V. pose proof DBL_EPSILON_pos.
  unfold bin_duration. apply Qdiv_pos; [lra | apply inject_Z_pos, Hos].
Qed.

Lemma valid_period (p : nat) :
  ranges_valid n_periods periods n_durations durations ->
  (p < n_periods)%nat ->
  0 < P p /\ P p <= max_period n_periods periods.
Proof.
  intros [V _] Hp. apply Qltb_false in V. pose proof DBL_EPSILON_pos.
  destruct (grid_min_is_min n_periods periods ltac:(lia)) as [_ Hmin].
  destruct (grid_max_is_max n_periods periods ltac:(lia)) as [_ Hmax].
  specialize (Hmin p Hp). specialize (Hmax p Hp).
  unfold period, min_period, max_period in *. split; lra.
Qed.

Lemma n_bins_bounds (p : nat) :
  ranges_valid n_periods periods n_durations durations ->
  (1 <= oversample)%Z -> (p < n_periods)%nat ->
  (oversample <= nb p
     <= max_n_bins n_periods periods n_durations durations oversample)%Z.
Proof.
  intros V Hos Hp. pose proof (valid_bin_duration V Hos) as Hb.
  destruct (valid_period p V Hp) as [H0 Hmax].
  unfold n_bins, max_n_bins.
  assert (H1 : 0 <= P p / bd) by (apply Qlt_le_weak, Qdiv_pos; assumption).
  pose proof (trunc_nonneg _ H1).
  pose proof (trunc_mono _ _ H1 (Qdiv_le_mono _ _ _ Hb Hmax)). lia.
Qed.

Lemma sample_bin_bounds (p n : nat) :
  ranges_valid n_periods periods n_durations durations ->
  (1 <= oversample)%Z -> (p < n_periods)%nat ->
  (1 <= bin_index (nth n t 0%Q) (P p) bd <= nb p)%Z.
Proof.
  intros V Hos Hp. pose proof (valid_bin_duration V Hos) as Hb.
  destruct (valid_period p V Hp) as [H0 _].
  pose proof (bin_index_bounds (nth n t 0) (P p) bd H0 Hb).
  unfold n_bins. lia.
Qed.

(** With valid ranges and [oversample >= 1], no iteration of the loop
    over the periods leaves the allocated block. *)
Lemma periods_ok (out : outputs) :
  ranges_valid n_periods periods n_durations durations ->
  (1 <= oversample)%Z ->
  exists st, for_each search (seq 0 n_periods)
               (work0 n_periods periods n_durations durations oversample, out)
             = Some st.
Proof.
  intros V Hos.
  set (L := Z.to_nat (blocksize n_periods periods n_durations durations
                        oversample)).
  destruct (for_each_total (fun st : scratch * outputs => sized L (fst st))
              search (seq 0 n_periods)
              (work0 n_periods periods n_durations durations oversample, out))
    as (st & Hst & _); [| | exists st; exact Hst].
  - unfold sized, work0. simpl. rewrite !repeat_length. tauto.
  - intros [w o] p Hp Hw. simpl in Hw. apply elem_of_seq in Hp.
    pose proof (n_bins_bounds p V Hos ltac:(lia)) as Hnb.
    assert (HL : (nb p < Z.of_nat L)%Z) by (unfold L, blocksize; lia).
    unfold search_period. simpl. fold (P p). fold (nb p).
    destruct (fold_period_ok L N t y ivar (P p) bd (nb p) oversample w Hw HL)
      as (w' & -> & Hw'); [lia | |].
    { intros n. apply sample_bin_bounds; [assumption .. | lia]. }
    simpl.
    destruct (scan_period_ok sqrt b obj_flag p (P p) bd w' (nb p) didx L
                n_durations l0 o Hw' HL) as [[l' o'] ->].
    { intros k Hk. apply durations_index_ge_1, Hk. }
    simpl. eexists. split; [reflexivity | exact Hw'].
Qed.


Lemma candidate_window (p k : nat) (n : Z) (w_p : scratch) (r : Q * Q) :
  scratch_at' p = Some w_p ->
  candidate' p k n = Some r ->
  window w_p n (nth k didx 0%Z) = Some r.
Proof. unfold candidate. intros ->. simpl. tauto. Qed.


(** C6. When the ranges are valid and the allocations succeed, the call
    returns status 0 whether or not anything is detected; and for a period
    [p] none of whose scanned windows can be accepted (each has
    [ivar_in < eps] or [ivar_out < eps], or is not a dip),
    [best_objective[p]] is the sentinel [-INFINITY]. *)
Theorem no_detection_sentinel (out : outputs) (st : Z) (out' : outputs)
    (p : nat) :
  ranges_valid n_periods periods n_durations durations ->
  allocations_succeed malloc_ok ->
  run out = Some (st, out') ->
  (p < n_periods)%nat ->
  (p < length (best_objective out))%nat ->
  (forall k n y_in ivar_in,
      scanned' p k n -> candidate' p k n = Some (y_in, ivar_in) ->
      skipped ivar_in (sum_ivar b - ivar_in) = true \/
      flux_out b y_in ivar_in < flux_in y_in ivar_in) ->
  st = 0%Z /\ best_objective out' !! p = Some NegInfinity.
Proof.
  intros [V1 V2] Hall Hrun Hp Hlen Hnone.
  assert (Hst : st = 0%Z).
  { apply run_status in Hrun.
    destruct Hrun as [(_ & _ & H) | [(_ & _ & _ & H) | [(_ & _ & _ & H) | H]]].
    - apply Qltb_true in H. congruence.
    - apply orb_false_iff in V2 as [V2 V3].
      apply Qgtb_false in V2. apply Qltb_false in V3.
      destruct H; lra.
    - contradiction.
    - tauto. }
  split; [exact Hst |]. subst st.
  destruct (run_period out out' p Hrun Hp)
    as (w_p & o_p & l_p & o_p' & Hw & Hshape & Hscan & Ha).
  assert (Hlen_p : (p < length (best_objective o_p))%nat)
    by (destruct Hshape as [<- _]; exact Hlen).
  assert (Hb : nth p (best_objective o_p') NegInfinity = NegInfinity).
  { apply (scan_period_sentinel sqrt b obj_flag p (P p) bd w_p (nb p) didx
             n_durations l0 o_p (l_p, o_p') Hlen_p); [| exact Hscan].
    intros k n y_in ivar_in Hk Hn Hwin.
    apply (Hnone k n); [split; assumption |].
    unfold candidate. rewrite Hw. exact Hwin. }
  destruct (scan_period_frame p w_p o_p l_p o_p' Hscan) as [Hshape' _].
  destruct Ha as [Ha _]. rewrite Ha in Hb.
  destruct (run_zero out out' Hrun) as [w' Hloop].
  apply periods_loop in Hloop as (_ & Hshape_out & _).
  destruct (nth_lookup_or_length (best_objective out') p NegInfinity)
    as [E | E].
  - rewrite E, Hb. reflexivity.
  - destruct Hshape_out as [Hl _]. lia.
Qed.


End Periods.

Lemma compute_objective_formulas_witness :
  0 < 2 /\ 0 < 2 /\
  depth_err (compute_objective Sample.sqrt 1 2 2 2 10 6 4 0 Sample.l0)
  = Sample.sqrt (1 / 2 + 1 / 2).
Proof.
  split; [reflexivity |]. split; [reflexivity |].
  apply (compute_objective_formulas Sample.sqrt 1 2 2 2 10 6 4 0 Sample.l0);
    reflexivity.
Defined.

(** ** The statements at concrete inputs *)

Section Examples.

Import Sample.

Local Abbreviation run3 flag :=
  (run_transit_periodogram Sample.sqrt malloc_ok l0 3 t3 y3 ivar3
     1 periods3 1 durations3 1 flag (out0 1)).
Local Abbreviation b3 := (sums 3 y3 ivar3).

Lemma sample_sqrt_pos (x : Q) : 0 < x -> 0 < Sample.sqrt x.
Proof.
  destruct x as [n d]. unfold Qlt, Sample.sqrt. simpl. intros H.
  assert (0 < Z.sqrt (n * Z.pos d))%Z by (apply Z.sqrt_pos; nia). lia.
Qed.



Lemma range_validation_witness :
  ((exists o, run3 1%Z = Some (1%Z, o)) <-> 3 < DBL_EPSILON) /\
  ((exists o, run3 1%Z = Some (2%Z, o)) <->
     ~ 3 < DBL_EPSILON /\ (3 < 1 \/ 1 < DBL_EPSILON)) /\
  (forall st o, run3 1%Z = Some (st, o) -> st <> 0%Z -> o = out0 1).
Proof.
  apply (range_validation Sample.sqrt malloc_ok l0 3 t3 y3 ivar3
           1 periods3 1 durations3 1 1 (out0 1) 3 1 1).
  - lia.
  - lia.
  - split; [exists 0%nat; split; [lia | reflexivity] |].
    intros k Hk. replace k with 0%nat by lia. vm_compute. discriminate.
  - split; [exists 0%nat; split; [lia | reflexivity] |].
    intros k Hk. replace k with 0%nat by lia. vm_compute. discriminate.
  - split; [exists 0%nat; split; [lia | reflexivity] |].
    intros k Hk. replace k with 0%nat by lia. vm_compute. discriminate.
Defined.


Lemma no_detection_sentinel_witness :
  exists st out',
    run_transit_periodogram Sample.sqrt malloc_ok l0 2 t2 y2 ivar2
      1 periods2 1 durations3 1 1 (out0 1) = Some (st, out') /\
    st = 0%Z /\ best_objective out' !! 0%nat = Some NegInfinity.
Proof.
  eexists. eexists. split; [vm_compute; reflexivity |].
  apply (no_detection_sentinel Sample.sqrt malloc_ok l0 2 t2 y2 ivar2
           1 periods2 1 durations3 1 1 (out0 1) _ _ 0).
  - split; reflexivity.
  - repeat split.
  - vm_compute. reflexivity.
  - lia.
  - simpl. lia.
  - intros k n y_in ivar_in [Hk Hn] Hc.
    replace k with 0%nat in * by lia.
    assert (Hb : (n_bins periods2 1 durations3 1 0
                  - nth 0 (durations_index 1 durations3 1) 0 = 2)%Z)
      by (vm_compute; reflexivity).
    rewrite Hb in Hn.
    assert (Hcases : n = 0%Z \/ n = 1%Z \/ n = 2%Z) by lia.
    destruct Hcases as [-> | [-> | ->]]; vm_compute in Hc;
      injection Hc as <- <-.
    + right. reflexivity.
    + right. reflexivity.
    + left. reflexivity.
Defined.

Lemma acceptance_records_both_statistics_witness :
  recorded Sample.sqrt b3 0 0 3 1 1 0 1 1
    (snd (consider Sample.sqrt b3 0 0 3 1 1 0 1 1
            (l0, reset_best 0 (out0 1)))).
Proof.
  apply (acceptance_records_both_statistics Sample.sqrt b3 0 0 3 1 1 0 1 1
           (l0, reset_best 0 (out0 1))).
  - unfold slot_allocated. simpl. repeat split; lia.
  - reflexivity.
  - vm_compute. discriminate.
  - exact I.
Defined.




(** C5: what the wrap-around copy does on the histogram of [t4], [y4],
    [ivar4] ([n_bins = 6], [oversample = 2]).  The copies of bins 1 and 2
    land in positions 4 and 5: bin 4, which held the last sample, is
    overwritten, and the last position, 6, is not written. *)
Theorem wrap_overwrites_last_bin :
  (w ← clear_bins 6 (Scratch (repeat 0 7) (repeat 0 7));
   bin_samples 4 t4 y4 ivar4 2 0.5 w)
  = Some (Scratch [0; 1; 2; 4; 8; 0; 0] [0; 1; 1; 1; 1; 0; 0]) /\
  wrap_bins 6 2 (Scratch [0; 1; 2; 4; 8; 0; 0] [0; 1; 1; 1; 1; 0; 0])
  = Some (Scratch [0; 1; 2; 4; 1; 2; 0] [0; 1; 1; 1; 1; 1; 0]).
Proof. split; vm_compute; reflexivity. Qed.

End Examples.

(** * Further properties of the code *)

(** ** Statuses, shape and frame of the call *)

Section Outcome.

Variable sqrt : Q -> Q.
Variable malloc_ok : nat -> bool.
Variable l0 : locals.
Variable N : nat.
Variables t y ivar : list Q.
Variable n_periods : nat.
Variable periods : list Q.
Variable n_durations : nat.
Variable durations : list Q.
Variables oversample obj_flag : Z.

Local Abbreviation run :=
  (run_transit_periodogram sqrt malloc_ok l0 N t y ivar n_periods periods
     n_durations durations oversample obj_flag).
Local Abbreviation search :=
  (search_period sqrt N t y ivar periods (sums N y ivar) obj_flag oversample
     (bin_duration n_durations durations oversample) n_durations
     (durations_index n_durations durations oversample) l0).
Local Abbreviation valid :=
  (ranges_valid n_periods periods n_durations durations).

(** X1. With valid ranges, the call returns -1, -2 or -3 exactly when the
    first allocation that fails is the one of [durations_index], of
    [mean_y] or of [mean_ivar]; the outputs come back as supplied. *)
Theorem allocation_failure_status (out : outputs) :
  valid ->
  (run out = Some ((-1)%Z, out) <-> malloc_ok 0%nat = false) /\
  (run out = Some ((-2)%Z, out) <->
     malloc_ok 0%nat = true /\ malloc_ok 1%nat = false) /\
  (run out = Some ((-3)%Z, out) <->
     malloc_ok 0%nat = true /\ malloc_ok 1%nat = true /\
     malloc_ok 2%nat = false).
Proof.
  intros [V1 V2]. unfold run_transit_periodogram. rewrite V1, V2.
  destruct (malloc_ok 0%nat), (malloc_ok 1%nat), (malloc_ok 2%nat); simpl;
    try (destruct (for_each _ _ _) as [[w' o'] |]; simpl);
    repeat split; intros; intuition (try discriminate; try congruence).
Qed.

(** Periods other than [q] leave slot [q] of the outputs alone, and no
    period changes the length of an output array. *)
Lemma periods_frame (ks : list nat) (w : scratch) (o : outputs)
    (w' : scratch) (o' : outputs) :
  for_each search ks (w, o) = Some (w', o') ->
  same_shape o o' /\ forall q, q ∉ ks -> agree_at q o o'.
Proof.
  intros H.
  apply (for_each_inv
           (fun st : scratch * outputs =>
              same_shape o (snd st) /\
              forall q, q ∉ ks -> agree_at q o (snd st))
           search ks (w, o) (w', o')); [| | exact H].
  - intros [w1 o1] p [w2 o2] Hp [Hs Ha] Hb. simpl in *.
    apply search_period_inv in Hb as (_ & l' & Hscan).
    apply (scan_period_frame sqrt malloc_ok) in Hscan as [Hs' Ha'].
    split; [eapply same_shape_trans; eassumption |].
    intros q Hq. eapply agree_at_trans; [apply Ha, Hq |].
    apply Ha'. intros ->. contradiction.
  - split; [apply same_shape_refl | intros; apply agree_at_refl].
Qed.

(** X2. Whatever the status, the call keeps the length of every output
    array and leaves every slot from [n_periods] on as the caller
    supplied it. *)
Theorem outputs_frame (out : outputs) (st : Z) (out' : outputs) :
  run out = Some (st, out') ->
  same_shape out out' /\
  forall q, (n_periods <= q)%nat -> agree_at q out out'.
Proof.
  intros Hrun. destruct (Z.eq_dec st 0%Z) as [-> | Hst].
  - apply run_zero in Hrun as [w' Hloop].
    apply periods_frame in Hloop as [Hs Ha]. split; [exact Hs |].
    intros q Hq. apply Ha. rewrite elem_of_seq. lia.
  - apply run_status in Hrun.
    assert (out' = out) as ->
      by (destruct Hrun as [(_ & H & _) | [(_ & H & _) | [(_ & H & _) | (? & _)]]];
          [exact H .. | contradiction]).
    split; [apply same_shape_refl | intros; apply agree_at_refl].
Qed.

(** With valid ranges, [oversample >= 1] and successful allocations the
    call returns status 0. *)
Lemma valid_call_returns_zero (out : outputs) :
  valid -> (1 <= oversample)%Z -> allocations_succeed malloc_ok ->
  exists out', run out = Some (0%Z, out').
Proof.
  intros V Hos (A0 & A1 & A2).
  destruct (periods_ok sqrt malloc_ok l0 N t y ivar n_periods periods
              n_durations durations oversample obj_flag out V Hos)
    as [[w' o'] Hst].
  exists o'. unfold run_transit_periodogram. destruct V as [-> ->].
  rewrite A0, A1, A2. simpl. rewrite Hst. reflexivity.
Qed.

End Outcome.

(** ** The table of duration bin counts *)

Lemma trunc_inject_Z (z : Z) : trunc (inject_Z z) = z.
Proof. unfold trunc. simpl. apply Z.quot_1_r. Qed.

Lemma round_nonneg (x : Q) : 0 <= x -> trunc (round x) = Qfloor (x + 0.5).
Proof.
  intros H. unfold round. apply Qleb_true in H. rewrite H.
  apply trunc_inject_Z.
Qed.

(** Rounding moves a non-negative number by at most one half. *)
Lemma round_near (x : Q) :
  0 <= x ->
  inject_Z (trunc (round x)) - 0.5 <= x /\
  x < inject_Z (trunc (round x)) + 0.5.
Proof.
  intros H. rewrite round_nonneg by exact H.
  pose proof (Qfloor_le (x + 0.5)). pose proof (Qlt_floor (x + 0.5)).
  rewrite inject_Z_plus in *. change (inject_Z 1) with 1 in *. split; lra.
Qed.

Lemma round_le_floor_succ (x : Q) :
  0 <= x -> (trunc (round x) <= Qfloor x + 1)%Z.
Proof.
  intros H. destruct (round_near x H) as [Hlo _].
  pose proof (Qlt_floor x) as Hx.
  assert (Hlt : inject_Z (trunc (round x)) < inject_Z (Qfloor x + 1 + 1)).
  { rewrite !inject_Z_plus in *. change (inject_Z 1) with 1 in *. lra. }
  rewrite <- Zlt_Qlt in Hlt. lia.
Qed.

Lemma round_ge_integer (x : Q) (z : Z) :
  0 <= x -> inject_Z z <= x -> (z <= trunc (round x))%Z.
Proof.
  intros H0 Hz. destruct (round_near x H0) as [_ Hhi].
  assert (Hlt : inject_Z z < inject_Z (trunc (round x) + 1)).
  { rewrite inject_Z_plus. change (inject_Z 1) with 1. lra. }
  rewrite <- Zlt_Qlt in Hlt. lia.
Qed.

Section DurationBins.

Variable n_periods : nat.
Variable periods : list Q.
Variable n_durations : nat.
Variable durations : list Q.
Variable oversample : Z.

Local Abbreviation bd := (bin_duration n_durations durations oversample).
Local Abbreviation didx :=
  (durations_index n_durations durations oversample).
Local Abbreviation valid :=
  (ranges_valid n_periods periods n_durations durations).

Lemma durations_index_nth (k : nat) :
  (k < n_durations)%nat ->
  nth k didx 0%Z =
  let d := trunc (round (nth k durations 0 / bd)) in
  if (d <=? 0)%Z then 1%Z else d.
Proof.
  intros Hk. unfold durations_index, duration_bins.
  set (f := fun k : nat => _).
  rewrite (nth_indep _ 0%Z (f 0%nat))
    by (rewrite length_map, length_seq; exact Hk).
  rewrite map_nth, seq_nth by exact Hk. reflexivity.
Qed.

(** With valid ranges every duration lies between the shortest one and
    every period, and spans at least [oversample] bin widths. *)
Lemma valid_duration (p k : nat) :
  valid -> (1 <= oversample)%Z ->
  (p < n_periods)%nat -> (k < n_durations)%nat ->
  inject_Z oversample <= nth k durations 0 / bd /\
  nth k durations 0 / bd <= period periods p / bd.
Proof.
  intros V Hos Hp Hk. pose proof (valid_bin_duration _ _ _ _ _ V Hos) as Hb.
  destruct V as [V1 V2]. apply orb_false_iff in V2 as [V2 V3].
  apply Qltb_false in V1. apply Qgtb_false in V2. apply Qltb_false in V3.
  pose proof DBL_EPSILON_pos as He.
  destruct (grid_min_is_min n_durations durations ltac:(lia)) as [_ Hmin].
  destruct (grid_max_is_max n_durations durations ltac:(lia)) as [_ Hmax].
  destruct (grid_min_is_min n_periods periods ltac:(lia)) as [_ HminP].
  specialize (Hmin k Hk). specialize (Hmax k Hk). specialize (HminP p Hp).
  unfold min_duration, max_duration, min_period, period in *.
  pose proof (inject_Z_pos oversample Hos) as Hio.
  split.
  - apply Qle_shift_div_l; [exact Hb |].
    assert (E : inject_Z oversample * bd == grid_min n_durations durations)
      by (unfold bin_duration, min_duration; field; lra).
    rewrite E. exact Hmin.
  - apply Qdiv_le_mono; [exact Hb | lra].
Qed.

(** The bin count of a duration under valid ranges. *)
Lemma durations_index_facts (p k : nat) :
  valid -> (1 <= oversample)%Z ->
  (p < n_periods)%nat -> (k < n_durations)%nat ->
  (oversample <= nth k didx 0
     <= n_bins periods n_durations durations oversample p)%Z /\
  Qabs (inject_Z (nth k didx 0%Z) * bd - nth k durations 0) <= 0.5 * bd.
Proof.
  intros V Hos Hp Hk. pose proof (valid_bin_duration _ _ _ _ _ V Hos) as Hb.
  destruct (valid_duration p k V Hos Hp Hk) as [Hlo Hhi].
  pose proof (inject_Z_pos oversample Hos) as Hio.
  set (x := nth k durations 0 / bd) in *.
  assert (Hx : 0 <= x) by lra.
  pose proof (round_ge_integer x oversample Hx Hlo) as Hge.
  pose proof (round_le_floor_succ x Hx) as Hle.
  pose proof (Qfloor_resp_le _ _ Hhi) as Hfl.
  rewrite <- (trunc_floor (period periods p / bd)) in Hfl by lra.
  rewrite durations_index_nth by exact Hk. cbv zeta. fold x.
  destruct (trunc (round x) <=? 0)%Z eqn:E; [lia |].
  split; [unfold n_bins; lia |].
  destruct (round_near x Hx) as [N1 N2].
  assert (Ex : nth k durations 0 == x * bd) by (unfold x; field; lra).
  rewrite Ex. apply Qabs_Qle_condition. split; nra.
Qed.


End DurationBins.

(** ** Loops, with the position in the loop *)

(** As [for_each_inv], but the step may use the iterations already done
    and the state they started from. *)
Lemma for_each_inv_pos {A S : Type} (P : S -> Prop)
    (body : S -> A -> option S) (l : list A) (s s' : S) :
  (forall pre x post s1 s2,
      l = pre ++ x :: post ->
      for_each body pre s = Some s1 ->
      P s1 -> body s1 x = Some s2 -> P s2) ->
  P s -> for_each body l s = Some s' -> P s'.
Proof.
  intros Hstep Hs.
  assert (G : forall rest pre s1,
             l = pre ++ rest -> for_each body pre s = Some s1 -> P s1 ->
             for_each body rest s1 = Some s' -> P s').
  { induction rest as [| x rest IH]; intros pre s1 El Hpre Hs1 Hrest.
    - simpl in Hrest. congruence.
    - simpl in Hrest. destruct (body s1 x) as [s2 |] eqn:Hb; [| discriminate].
      apply (IH (pre ++ [x]) s2).
      + rewrite <- app_assoc. exact El.
      + rewrite for_each_app, Hpre. simpl. rewrite Hb. reflexivity.
      + eapply Hstep; eassumption.
      + exact Hrest. }
  intros Hrun. apply (G l [] s); [reflexivity | reflexivity | exact Hs | exact Hrun].
Qed.

Lemma seq_prefix (a n k : nat) (pre post : list nat) :
  seq a n = pre ++ k :: post -> pre = seq a (k - a) /\ (a <= k < a + n)%nat.
Proof.
  revert a n. induction pre as [| x pre IH]; intros a n E.
  - destruct n as [| n]; simpl in E; [discriminate |].
    injection E as -> _. rewrite Nat.sub_diag. split; [reflexivity | lia].
  - destruct n as [| n]; simpl in E; [discriminate |].
    injection E as <- E. apply IH in E as [-> Hk].
    replace (k - a)%nat with (S (k - S a)) by lia. split; [reflexivity | lia].
Qed.

Lemma range_prefix (lo hi n : Z) (pre post : list Z) :
  range lo hi = pre ++ n :: post -> pre = range lo n /\ (lo <= n < hi)%Z.
Proof.
  revert lo. induction pre as [| x pre IH]; intros lo E.
  - destruct (Z_lt_le_dec lo hi) as [Hlt | Hge].
    + rewrite (range_split lo lo hi) in E by lia.
      replace (range lo lo) with (@nil Z) in E
        by (unfold range; rewrite Z.sub_diag; reflexivity).
      injection E as <- _. split; [| lia].
      unfold range. rewrite Z.sub_diag. reflexivity.
    + unfold range in E. rewrite seqZ_nil in E by lia. discriminate.
  - destruct (Z_lt_le_dec lo hi) as [Hlt | Hge].
    + rewrite (range_split lo lo hi) in E by lia.
      replace (range lo lo) with (@nil Z) in E
        by (unfold range; rewrite Z.sub_diag; reflexivity).
      injection E as <- E. apply IH in E as [-> Hn].
      split; [| lia]. rewrite (range_split lo lo n) by lia.
      unfold range at 2. rewrite Z.sub_diag. reflexivity.
    + unfold range in E. rewrite seqZ_nil in E by lia. discriminate.
Qed.

(** ** What the scan of one period returns *)

Section ScanResult.

Variable sqrt : Q -> Q.
Variable b : baseline.
Variable obj_flag : Z.
Variable p : nat.
Variables period bin_duration : Q.
Variable w : scratch.
Variable n_bins : Z.
Variable durations_index : list Z.
Variable n_durations : nat.
Variable l0 : locals.
Variable o : outputs.

Local Abbreviation dur k := (nth k durations_index 0%Z).
Local Abbreviation consider' :=
  (consider sqrt b obj_flag p period bin_duration).
Local Abbreviation score' := (score sqrt b obj_flag).
Local Abbreviation recorded' :=
  (recorded sqrt b obj_flag p period bin_duration).
Local Abbreviation scan_before' :=
  (scan_before sqrt b obj_flag p period bin_duration w n_bins
     durations_index l0 o).
Local Abbreviation scan_period' :=
  (scan_period sqrt b obj_flag p period bin_duration w n_bins n_durations
     durations_index l0 o).
Local Abbreviation best st := (nth p (best_objective (snd st)) NegInfinity).

(** An invariant of the scan may use, at every candidate, that the state
    is the one just before that candidate. *)
Lemma scan_period_inv_pos (P : locals * outputs -> Prop)
    (st : locals * outputs) :
  (forall k n y_in ivar_in s,
      (k < n_durations)%nat -> (0 <= n <= n_bins - dur k)%Z ->
      scan_before' k n = Some s ->
      window w n (dur k) = Some (y_in, ivar_in) ->
      P s -> P (consider' (dur k) n y_in ivar_in s)) ->
  P (l0, reset_best p o) -> scan_period' = Some st -> P st.
Proof.
  intros Hstep. unfold scan_period. apply for_each_inv_pos.
  intros pre k post s1 s2 Ek Hpre Hs1 Hk.
  apply seq_prefix in Ek as [-> Hk_lt]. rewrite Nat.sub_0_r in Hpre.
  unfold scan_duration in Hk. revert Hs1 Hk. apply for_each_inv_pos.
  intros pre' n post' s3 s4 En Hpre' Hs3 Hn.
  apply range_prefix in En as [-> Hn_range].
  apply scan_candidate_inv in Hn as (y_in & ivar_in & Hw & ->).
  apply Hstep; try assumption; [lia .. |].
  unfold scan_before. rewrite Hpre. simpl. exact Hpre'.
Qed.

(** The outcome of the scan: nothing was accepted and the outputs are as
    they were after the reset, or slot [p] holds the statistics of a
    scanned dip that was accepted when its turn came. *)
Lemma scan_period_result (st : locals * outputs) :
  slot_allocated p o ->
  scan_period' = Some st ->
  snd st = reset_best p o \/
  exists k n y_in ivar_in s0,
    (k < n_durations)%nat /\ (0 <= n <= n_bins - dur k)%Z /\
    window w n (dur k) = Some (y_in, ivar_in) /\
    skipped ivar_in (sum_ivar b - ivar_in) = false /\
    flux_in y_in ivar_in <= flux_out b y_in ivar_in /\
    scan_before' k n = Some s0 /\
    xlt (best s0) (score' y_in ivar_in) /\
    recorded' (dur k) n y_in ivar_in (snd st).
Proof.
  intros Hslot Hscan.
  assert (G : slot_allocated p (snd st) /\
              (snd st = reset_best p o \/
               exists k n y_in ivar_in s0,
                 (k < n_durations)%nat /\ (0 <= n <= n_bins - dur k)%Z /\
                 window w n (dur k) = Some (y_in, ivar_in) /\
                 skipped ivar_in (sum_ivar b - ivar_in) = false /\
                 flux_in y_in ivar_in <= flux_out b y_in ivar_in /\
                 scan_before' k n = Some s0 /\
                 xlt (best s0) (score' y_in ivar_in) /\
                 recorded' (dur k) n y_in ivar_in (snd st)));
    [| exact (proj2 G)].
  revert Hscan.
  apply (scan_period_inv_pos
           (fun st =>
              slot_allocated p (snd st) /\
              (snd st = reset_best p o \/
               exists k n y_in ivar_in s0,
                 (k < n_durations)%nat /\ (0 <= n <= n_bins - dur k)%Z /\
                 window w n (dur k) = Some (y_in, ivar_in) /\
                 skipped ivar_in (sum_ivar b - ivar_in) = false /\
                 flux_in y_in ivar_in <= flux_out b y_in ivar_in /\
                 scan_before' k n = Some s0 /\
                 xlt (best s0) (score' y_in ivar_in) /\
                 recorded' (dur k) n y_in ivar_in (snd st)))).
  - intros k n y_in ivar_in s Hk Hn Hbefore Hw [Hs Hcase].
    assert (Hs' : slot_allocated p (snd (consider' (dur k) n y_in ivar_in s)))
      by (eapply same_shape_slot; [apply consider_shape | exact Hs]).
    split; [exact Hs' |].
    destruct (improves_dec sqrt b obj_flag y_in ivar_in (best s)) as [Hi | Hn'].
    + destruct (skipped ivar_in (sum_ivar b - ivar_in)) eqn:Hsk.
      * rewrite consider_skipped by exact Hsk. exact Hcase.
      * right. exists k, n, y_in, ivar_in, s.
        repeat (split; [first [assumption | apply Hi] |]).
        apply consider_records; assumption.
    + rewrite consider_rejected by exact Hn'. exact Hcase.
  - split; [| left; reflexivity].
    destruct Hslot as (H1 & H2).
    unfold slot_allocated, reset_best. simpl. rewrite length_insert. tauto.
Qed.

(** The outcome of the scan against all the candidates: when nothing was
    accepted, no scanned window is a dip that passes the skip rule;
    otherwise the recorded dip scores at least as much as every such
    window, and strictly more than those scanned before it. *)
Lemma scan_period_best (st : locals * outputs) :
  slot_allocated p o ->
  scan_period' = Some st ->
  (snd st = reset_best p o /\
   forall k n y_in ivar_in,
     (k < n_durations)%nat -> (0 <= n <= n_bins - dur k)%Z ->
     window w n (dur k) = Some (y_in, ivar_in) ->
     skipped ivar_in (sum_ivar b - ivar_in) = true \/
     flux_out b y_in ivar_in < flux_in y_in ivar_in) \/
  (exists k n y_in ivar_in,
     (k < n_durations)%nat /\ (0 <= n <= n_bins - dur k)%Z /\
     window w n (dur k) = Some (y_in, ivar_in) /\
     skipped ivar_in (sum_ivar b - ivar_in) = false /\
     flux_in y_in ivar_in <= flux_out b y_in ivar_in /\
     recorded' (dur k) n y_in ivar_in (snd st) /\
     forall k' n' y' ivar',
       (k' < n_durations)%nat -> (0 <= n' <= n_bins - dur k')%Z ->
       window w n' (dur k') = Some (y', ivar') ->
       skipped ivar' (sum_ivar b - ivar') = false ->
       flux_in y' ivar' <= flux_out b y' ivar' ->
       score' y' ivar' <= score' y_in ivar_in /\
       (precedes k' n' k n -> score' y' ivar' < score' y_in ivar_in)).
Proof.
  intros Hslot Hscan.
  assert (Hlen : (p < length (best_objective o))%nat) by apply Hslot.
  assert (Hfinal : forall k' n' y' ivar',
             (k' < n_durations)%nat -> (0 <= n' <= n_bins - dur k')%Z ->
             window w n' (dur k') = Some (y', ivar') ->
             skipped ivar' (sum_ivar b - ivar') = false ->
             flux_in y' ivar' <= flux_out b y' ivar' ->
             xge (best st) (score' y' ivar')).
  { intros k' n' y' ivar' Hk' Hn' Hw' Hs' Hd'.
    rewrite scan_period_before in Hscan.
    eapply (scan_before_reach sqrt b obj_flag p period bin_duration w n_bins
              durations_index l0 o k' n_durations n' 0 y' ivar' st);
      try eassumption.
    left. exact Hk'. }
  destruct (scan_period_result st Hslot Hscan)
    as [Hnone | (k & n & y_in & ivar_in & s0 & Hk & Hn & Hw & Hs & Hd
                   & Hbefore & Hlt & Hrec)].
  - left. split; [exact Hnone |].
    intros k n y_in ivar_in Hk Hn Hw.
    destruct (skipped ivar_in (sum_ivar b - ivar_in)) eqn:Hs; [left; reflexivity |].
    right. destruct (Qlt_le_dec (flux_out b y_in ivar_in) (flux_in y_in ivar_in))
      as [Hlt | Hd]; [exact Hlt | exfalso].
    pose proof (Hfinal k n y_in ivar_in Hk Hn Hw Hs Hd) as Hge.
    rewrite Hnone in Hge. simpl in Hge.
    rewrite nth_insert_eq in Hge by exact Hlen. exact Hge.
  - right. exists k, n, y_in, ivar_in.
    repeat (split; [assumption |]).
    intros k' n' y' ivar' Hk' Hn' Hw' Hs' Hd'. split.
    + pose proof (Hfinal k' n' y' ivar' Hk' Hn' Hw' Hs' Hd') as Hge.
      destruct Hrec as [Hb _]. rewrite Hb in Hge. exact Hge.
    + intros Hprec.
      destruct (scan_before_reach sqrt b obj_flag p period bin_duration w
                  n_bins durations_index l0 o k' k n' n y' ivar' s0)
        as [_ Hge]; try assumption.
      destruct (best s0); simpl in *; [contradiction | lra].
Qed.

End ScanResult.

(** ** The best of a period after the call *)

Lemma fmod_range (x m : Q) : 0 <= x -> 0 < m -> 0 <= fmod x m /\ fmod x m < m.
Proof.
  intros Hx Hm. split.
  - unfold fmod.
    assert (Hq : 0 <= x / m) by (apply Qle_shift_div_l; lra).
    rewrite trunc_floor by exact Hq. pose proof (Qfloor_le (x / m)) as Hf.
    assert (E : x == x / m * m) by (field; lra).
    assert (inject_Z (Qfloor (x / m)) * m <= x / m * m)
      by (apply Qmult_le_compat_r; lra).
    lra.
  - pose proof (fmod_bound x m Hm). pose proof (Qle_Qabs (fmod x m)).
    unfold fabs in *. lra.
Qed.

Lemma recorded_agree (sqrt : Q -> Q) (b : baseline) (obj_flag : Z)
    (p : nat) (period bin_duration : Q) (d n : Z) (y_in ivar_in : Q)
    (o o' : outputs) :
  agree_at p o o' ->
  recorded sqrt b obj_flag p period bin_duration d n y_in ivar_in o ->
  recorded sqrt b obj_flag p period bin_duration d n y_in ivar_in o'.
Proof.
  unfold agree_at, recorded.
  intros (A1 & A2 & A3 & A4 & A5 & A6 & A7).
  rewrite <- A1, <- A2, <- A3, <- A4, <- A5, <- A6, <- A7. tauto.
Qed.

Section BestOfPeriod.

Variable sqrt : Q -> Q.
Variable malloc_ok : nat -> bool.
Variable l0 : locals.
Variable N : nat.
Variables t y ivar : list Q.
Variable n_periods : nat.
Variable periods : list Q.
Variable n_durations : nat.
Variable durations : list Q.
Variables oversample obj_flag : Z.

Local Abbreviation run :=
  (run_transit_periodogram sqrt malloc_ok l0 N t y ivar n_periods periods
     n_durations durations oversample obj_flag).
Local Abbreviation bd := (bin_duration n_durations durations oversample).
Local Abbreviation didx := (durations_index n_durations durations oversample).
Local Abbreviation b := (sums N y ivar).
Local Abbreviation P p := (period periods p).
Local Abbreviation nb p :=
  (n_bins periods n_durations durations oversample p).
Local Abbreviation fold_nth :=
  (fun w q => fold_period N t y ivar (P q) bd (nb q) oversample w).
Local Abbreviation search :=
  (search_period sqrt N t y ivar periods b obj_flag oversample bd n_durations
     didx l0).
Local Abbreviation scan p w :=
  (scan_period sqrt b obj_flag p (P p) bd w (nb p) n_durations didx l0).
Local Abbreviation scratch_at' :=
  (scratch_at N t y ivar n_periods periods n_durations durations oversample).
Local Abbreviation candidate' :=
  (candidate N t y ivar n_periods periods n_durations durations oversample).
Local Abbreviation scanned' :=
  (scanned periods n_durations durations oversample).
Local Abbreviation valid :=
  (ranges_valid n_periods periods n_durations durations).
Local Abbreviation score' := (score sqrt b obj_flag).

(** As [run_period], with the link between the outputs supplied to the
    call and those the scan of period [p] starts from. *)
Lemma run_period_from (out out' : outputs) (p : nat) :
  run out = Some (0%Z, out') ->
  (p < n_periods)%nat ->
  exists w_p o_p l_p o_p',
    scratch_at' p = Some w_p /\
    same_shape out o_p /\ agree_at p out o_p /\
    scan p w_p o_p = Some (l_p, o_p') /\
    agree_at p o_p' out'.
Proof.
  intros Hrun Hp. apply run_zero in Hrun as [w' Hrun].
  rewrite (seq_split p n_periods Hp), for_each_app in Hrun.
  destruct (for_each search (seq 0 p) _) as [[w1 o1] |] eqn:E1;
    [| discriminate].
  cbn [for_each] in Hrun.
  destruct (search (w1, o1) p) as [[w2 o2] |] eqn:E2; [| discriminate].
  destruct (periods_frame sqrt malloc_ok l0 N t y ivar periods n_durations
              durations oversample obj_flag _ _ _ _ _ E1) as [Hs1 Ha1].
  destruct (periods_frame sqrt malloc_ok l0 N t y ivar periods n_durations
              durations oversample obj_flag _ _ _ _ _ Hrun) as [_ Ha2].
  apply (periods_loop sqrt malloc_ok) in E1 as (Hf1 & _ & _).
  apply search_period_inv in E2 as (Hf2 & l2 & Hscan).
  exists w2, o1, l2, o2. split; [| split; [| split; [| split]]].
  - unfold scratch_at. rewrite seq_S, for_each_app.
    change (for_each fold_nth (seq 0 p)
              (work0 n_periods periods n_durations durations oversample))
      with (for_each fold_nth (seq 0 p)
              (work0 n_periods periods n_durations durations oversample)).
    rewrite Hf1. cbn [for_each Nat.add]. rewrite Hf2. reflexivity.
  - exact Hs1.
  - apply Ha1. rewrite elem_of_seq. lia.
  - exact Hscan.
  - apply Ha2. rewrite elem_of_seq. lia.
Qed.

(** The best of period [p] against all its scanned windows. *)
Lemma run_best (out out' : outputs) (p : nat) :
  run out = Some (0%Z, out') ->
  (p < n_periods)%nat ->
  slot_allocated p out ->
  (nth p (best_objective out') NegInfinity = NegInfinity /\
   nth p (best_depth out') 0 = nth p (best_depth out) 0 /\
   nth p (best_depth_err out') 0 = nth p (best_depth_err out) 0 /\
   nth p (best_duration out') 0 = nth p (best_duration out) 0 /\
   nth p (best_phase out') 0 = nth p (best_phase out) 0 /\
   nth p (best_depth_snr out') 0 = nth p (best_depth_snr out) 0 /\
   nth p (best_log_like out') 0 = nth p (best_log_like out) 0 /\
   forall k n y_in ivar_in,
     scanned' p k n -> candidate' p k n = Some (y_in, ivar_in) ->
     skipped ivar_in (sum_ivar b - ivar_in) = true \/
     flux_out b y_in ivar_in < flux_in y_in ivar_in) \/
  (exists k n y_in ivar_in,
     scanned' p k n /\ candidate' p k n = Some (y_in, ivar_in) /\
     skipped ivar_in (sum_ivar b - ivar_in) = false /\
     flux_in y_in ivar_in <= flux_out b y_in ivar_in /\
     recorded sqrt b obj_flag p (P p) bd (nth k didx 0%Z) n y_in ivar_in
       out' /\
     forall k' n' y' ivar',
       scanned' p k' n' -> candidate' p k' n' = Some (y', ivar') ->
       skipped ivar' (sum_ivar b - ivar') = false ->
       flux_in y' ivar' <= flux_out b y' ivar' ->
       score' y' ivar' <= score' y_in ivar_in /\
       (precedes k' n' k n -> score' y' ivar' < score' y_in ivar_in)).
Proof.
  intros Hrun Hp Hslot.
  destruct (run_period_from out out' p Hrun Hp)
    as (w_p & o_p & l_p & o_p' & Hw & Hshape & Hfrom & Hscan & Hto).
  assert (Hslot_p : slot_allocated p o_p)
    by (eapply same_shape_slot; eassumption).
  assert (Hcand : forall k n r, candidate' p k n = Some r ->
                    window w_p n (nth k didx 0%Z) = Some r).
  { intros k n r. unfold candidate. rewrite Hw. simpl. tauto. }
  destruct (scan_period_best sqrt b obj_flag p (P p) bd w_p (nb p) didx
              n_durations l0 o_p (l_p, o_p') Hslot_p Hscan)
    as [[Hnone Hall] | (k & n & y_in & ivar_in & Hk & Hn & Hwin & Hs & Hd
                          & Hrec & Hmax)].
  - left. simpl in Hnone.
    destruct Hto as (T1 & T2 & T3 & T4 & T5 & T6 & T7).
    destruct Hfrom as (F1 & F2 & F3 & F4 & F5 & F6 & F7).
    rewrite <- T1, <- T2, <- T3, <- T4, <- T5, <- T6, <- T7.
    rewrite Hnone. simpl.
    rewrite nth_insert_eq by apply Hslot_p.
    repeat (split; [first [reflexivity | symmetry; assumption] |]).
    intros k n y_in ivar_in [Hk Hn] Hc. apply (Hall k n); auto.
  - right. exists k, n, y_in, ivar_in.
    split; [split; assumption |].
    split; [unfold candidate; rewrite Hw; exact Hwin |].
    split; [exact Hs |]. split; [exact Hd |].
    split; [eapply recorded_agree; eassumption |].
    intros k' n' y' ivar' [Hk' Hn'] Hc'. apply (Hmax k' n'); auto.
Qed.




End BestOfPeriod.

(** ** The cumulative sums *)

Lemma load_nth (a : list Q) (i : Z) (v : Q) :
  load a i = Some v -> (0 <= i)%Z /\ v = nth (Z.to_nat i) a 0.
Proof.
  unfold load. destruct (i <? 0)%Z eqn:E; [discriminate |].
  intros H. split; [lia |]. symmetry. apply nth_lookup_Some, H.
Qed.

Lemma cumulate_step_inv (n : Z) (w w' : scratch) :
  (a ← load (mean_y w) n;
   a' ← load (mean_y w) (n - 1);
   my ← store (mean_y w) n (a + a');
   c ← load (mean_ivar w) n;
   c' ← load (mean_ivar w) (n - 1);
   mi ← store (mean_ivar w) n (c + c');
   Some (Scratch my mi)) = Some w' ->
  exists a a' c c',
    load (mean_y w) n = Some a /\ load (mean_y w) (n - 1) = Some a' /\
    store (mean_y w) n (a + a') = Some (mean_y w') /\
    load (mean_ivar w) n = Some c /\ load (mean_ivar w) (n - 1) = Some c' /\
    store (mean_ivar w) n (c + c') = Some (mean_ivar w').
Proof.
  destruct (load (mean_y w) n) as [a |]; simpl; [| discriminate].
  destruct (load (mean_y w) (n - 1)) as [a' |]; simpl; [| discriminate].
  destruct (store (mean_y w) n _) as [my |] eqn:Sy; simpl; [| discriminate].
  destruct (load (mean_ivar w) n) as [c |]; simpl; [| discriminate].
  destruct (load (mean_ivar w) (n - 1)) as [c' |]; simpl; [| discriminate].
  destruct (store (mean_ivar w) n _) as [mi |] eqn:Si; simpl;
    [| discriminate].
  intros [= <-]. exists a, a', c, c'. simpl. auto 10.
Qed.

(** After [j] iterations the cells [0 .. j] hold the prefix sums of the
    array the loop started from, and the other cells are as they were. *)
Lemma cumulate_loop (j : nat) (w w' : scratch) :
  is_Some (load (mean_y w) 0) -> is_Some (load (mean_ivar w) 0) ->
  cumulate (Z.of_nat j) w = Some w' ->
  (forall i, (i <= j)%nat ->
     load (mean_y w') (Z.of_nat i) = Some (prefix_sum (mean_y w) i) /\
     load (mean_ivar w') (Z.of_nat i) = Some (prefix_sum (mean_ivar w) i)) /\
  (forall z, (Z.of_nat j < z)%Z ->
     load (mean_y w') z = load (mean_y w) z /\
     load (mean_ivar w') z = load (mean_ivar w) z).
Proof.
  intros [y0 Hy0] [i0 Hi0]. unfold cumulate. revert w'.
  induction j as [| j IH]; intros w'.
  - simpl. intros [= <-]. split; [| auto].
    intros i Hi. replace i with 0%nat by lia. cbn [prefix_sum].
    change (Z.of_nat 0) with 0%Z. rewrite Hy0, Hi0.
    apply load_nth in Hy0 as [_ ->]. apply load_nth in Hi0 as [_ ->].
    split; reflexivity.
  - rewrite (range_split 1 (Z.of_nat (S j)) (Z.of_nat (S j) + 1)) by lia.
    replace (range (Z.of_nat (S j) + 1) (Z.of_nat (S j) + 1)) with (@nil Z)
      by (unfold range; rewrite Z.sub_diag; reflexivity).
    replace (Z.of_nat (S j)) with (Z.of_nat j + 1)%Z by lia.
    rewrite for_each_app.
    destruct (for_each _ (range 1 (Z.of_nat j + 1)) w) as [w1 |] eqn:E1;
      [| discriminate].
    destruct (IH w1 eq_refl) as [Hpre Hrest].
    cbn [for_each].
    destruct (_ ≫= _) as [w2 |] eqn:E2; [| discriminate].
    intros [= <-].
    apply cumulate_step_inv in E2
      as (a & a' & c & c' & La & La' & Sy & Lc & Lc' & Si).
    destruct (Hrest (Z.of_nat j + 1)%Z ltac:(lia)) as [Ry Ri].
    rewrite Ry in La. rewrite Ri in Lc.
    replace (Z.of_nat j + 1 - 1)%Z with (Z.of_nat j) in La', Lc' by lia.
    destruct (Hpre j ltac:(lia)) as [Py Pi].
    rewrite Py in La'. rewrite Pi in Lc'.
    injection La' as <-. injection Lc' as <-.
    apply load_nth in La as [_ ->]. apply load_nth in Lc as [_ ->].
    replace (Z.to_nat (Z.of_nat j + 1)) with (S j) in * by lia.
    split.
    + intros i Hi. destruct (decide (i = S j)) as [-> | Hne].
      * replace (Z.of_nat (S j)) with (Z.of_nat j + 1)%Z by lia.
        rewrite (load_store_eq _ _ _ _ Sy), (load_store_eq _ _ _ _ Si).
        split; reflexivity.
      * rewrite (load_store_ne _ _ _ _ _ Sy) by lia.
        rewrite (load_store_ne _ _ _ _ _ Si) by lia. apply Hpre. lia.
    + intros z Hz. rewrite (load_store_ne _ _ _ _ _ Sy) by lia.
      rewrite (load_store_ne _ _ _ _ _ Si) by lia. apply Hrest. lia.
Qed.

Lemma prefix_sum_diff (a : list Q) (n d : nat) :
  prefix_sum a (n + d) - prefix_sum a n == bins_total a n d.
Proof.
  induction d as [| d IH]; simpl.
  - rewrite Nat.add_0_r. ring.
  - replace (n + S d)%nat with (S (n + d)) by lia. simpl.
    rewrite <- IH. ring.
Qed.

(** The first iteration of the cumulative loop reads cell 0. *)
Lemma cumulate_reads_base (n_bins : Z) (w w' : scratch) :
  (1 <= n_bins)%Z -> cumulate n_bins w = Some w' ->
  is_Some (load (mean_y w) 0) /\ is_Some (load (mean_ivar w) 0).
Proof.
  intros Hn. unfold cumulate.
  rewrite (range_split 1 1 (n_bins + 1)) by lia.
  replace (range 1 1) with (@nil Z) by reflexivity. cbn [app for_each].
  destruct (_ ≫= _) as [w1 |] eqn:E1; [| discriminate]. intros _.
  apply cumulate_step_inv in E1 as (a & a' & c & c' & _ & La' & _ & _ & Lc' & _).
  change (1 - 1)%Z with 0%Z in *. split; eauto.
Qed.


(** ** The wrap-around copy, cell by cell *)

(** X8. When the bins [1 .. oversample] lie before position
    [n_bins - oversample], the wrap-around copy puts bin [j] into
    position [n_bins - oversample + j - 1] for every [j] in
    [1 .. oversample], in both work arrays, and changes no other cell:
    the positions written are [n_bins - oversample .. n_bins - 1]. *)
Theorem wrap_copies_bins (n_bins oversample : Z) (w w' : scratch) :
  (1 <= oversample)%Z -> (oversample < n_bins - oversample)%Z ->
  wrap_bins n_bins oversample w = Some w' ->
  forall i,
    load (mean_y w') i =
      (if ((n_bins - oversample <=? i) && (i <? n_bins))%Z
       then load (mean_y w) (i - (n_bins - oversample) + 1)
       else load (mean_y w) i) /\
    load (mean_ivar w') i =
      (if ((n_bins - oversample <=? i) && (i <? n_bins))%Z
       then load (mean_ivar w) (i - (n_bins - oversample) + 1)
       else load (mean_ivar w) i).
Proof.
  intros Hos Hsep Hrun i.
  destruct ((n_bins - oversample <=? i) && (i <? n_bins))%Z eqn:E.
  - apply andb_true_iff in E as [E1 E2].
    apply Z.leb_le in E1. apply Z.ltb_lt in E2.
    set (j := (i - (n_bins - oversample) + 1)%Z).
    unfold wrap_bins in Hrun.
    rewrite (range_split 1 j (oversample + 1)) in Hrun by (unfold j; lia).
    rewrite for_each_app in Hrun.
    destruct (for_each _ (range 1 j) w) as [w1 |] eqn:E3; [| discriminate].
    cbn [for_each] in Hrun.
    destruct (_ ≫= _) as [w2 |] eqn:E4 in Hrun; [| discriminate].
    destruct (wrap_keeps n_bins oversample j (range 1 j) w w1) as [Ky Ki];
      [| exact E3 |].
    { intros n Hn. apply elem_of_range in Hn. lia. }
    apply wrap_step_inv in E4 as (a & c & La & Lc & Sy & Si).
    replace (n_bins - oversample + (j - 1))%Z with i in Sy, Si
      by (unfold j; lia).
    destruct (wrap_keeps n_bins oversample i (range (j + 1) (oversample + 1))
                w2 w') as [Ky' Ki']; [| exact Hrun |].
    { intros n Hn. apply elem_of_range in Hn. unfold j in Hn. lia. }
    rewrite Ky', Ki', (load_store_eq _ _ _ _ Sy), (load_store_eq _ _ _ _ Si).
    rewrite <- Ky, <- Ki, La, Lc. split; reflexivity.
  - apply (wrap_keeps n_bins oversample i (range 1 (oversample + 1)) w w');
      [| exact Hrun].
    intros n Hn. apply elem_of_range in Hn.
    apply andb_false_iff in E as [E | E];
      [apply Z.leb_gt in E | apply Z.ltb_ge in E]; lia.
Qed.

(** ** Series without weight *)

Lemma clear_bins_zero (n_bins : Z) (w w' : scratch) :
  clear_bins n_bins w = Some w' ->
  forall i, (0 <= i <= n_bins)%Z ->
    load (mean_y w') i = Some 0 /\ load (mean_ivar w') i = Some 0.
Proof.
  intros Hrun i Hi. unfold clear_bins in Hrun.
  rewrite (range_split 0 i (n_bins + 1)) in Hrun by lia.
  rewrite for_each_app in Hrun.
  destruct (for_each _ (range 0 i) w) as [w1 |]; [| discriminate].
  cbn [for_each] in Hrun.
  destruct (store (mean_y w1) i 0) as [my |] eqn:Sy; simpl in Hrun;
    [| discriminate].
  destruct (store (mean_ivar w1) i 0) as [mi |] eqn:Si; simpl in Hrun;
    [| discriminate].
  revert Hrun.
  apply (for_each_inv
           (fun w2 => load (mean_y w2) i = Some 0 /\
                      load (mean_ivar w2) i = Some 0)).
  - intros w2 n w3 _ [Hy Hv] Hb.
    destruct (store (mean_y w2) n 0) as [my' |] eqn:Sy'; simpl in Hb;
      [| discriminate].
    destruct (store (mean_ivar w2) n 0) as [mi' |] eqn:Si'; simpl in Hb;
      [| discriminate].
    injection Hb as <-. simpl.
    destruct (Z.eq_dec n i) as [-> | Hne].
    + split; eapply load_store_eq; eassumption.
    + rewrite (load_store_ne _ _ _ _ _ Sy' Hne).
      rewrite (load_store_ne _ _ _ _ _ Si' Hne). split; assumption.
  - simpl. split; eapply load_store_eq; eassumption.
Qed.

Lemma store_zero_cells (n_bins i : Z) (v : Q) (my mi mi' : list Q) :
  zero_weight_cells n_bins (Scratch my mi) ->
  store mi i v = Some mi' ->
  ((0 <= i <= n_bins)%Z -> v == 0) ->
  forall my', zero_weight_cells n_bins (Scratch my' mi').
Proof.
  intros Hz Hs Hv my' z Hzr. simpl.
  destruct (Z.eq_dec i z) as [-> | Hne].
  - exists v. split; [eapply load_store_eq; exact Hs | apply Hv, Hzr].
  - rewrite (load_store_ne _ _ _ _ _ Hs Hne). apply (Hz z Hzr).
Qed.

Lemma bin_samples_zero (N : nat) (t y ivar : list Q) (period bin_duration : Q)
    (n_bins : Z) (w w' : scratch) :
  (forall n, (n < N)%nat -> nth n ivar 0 == 0) ->
  zero_weight_cells n_bins w ->
  bin_samples N t y ivar period bin_duration w = Some w' ->
  zero_weight_cells n_bins w'.
Proof.
  intros Hiv. unfold bin_samples. apply for_each_inv.
  intros [my mi] n w2 Hn Hz Hb. apply elem_of_seq in Hn. simpl in Hb.
  set (ind := bin_index (nth n t 0) period bin_duration) in *.
  destruct (load my ind) as [a |]; simpl in Hb; [| discriminate].
  destruct (store my ind _) as [my' |]; simpl in Hb; [| discriminate].
  destruct (load mi ind) as [c |] eqn:Lc; simpl in Hb; [| discriminate].
  destruct (store mi ind _) as [mi' |] eqn:Si; simpl in Hb; [| discriminate].
  injection Hb as <-.
  eapply store_zero_cells; [exact Hz | exact Si |].
  intros Hr. destruct (Hz ind Hr) as (v & Lv & Ev). simpl in Lv.
  rewrite Lc in Lv. injection Lv as ->.
  rewrite Ev, (Hiv n ltac:(lia)). reflexivity.
Qed.

Lemma wrap_bins_zero (n_bins oversample : Z) (w w' : scratch) :
  (oversample <= n_bins)%Z ->
  zero_weight_cells n_bins w ->
  wrap_bins n_bins oversample w = Some w' ->
  zero_weight_cells n_bins w'.
Proof.
  intros Hos. unfold wrap_bins. apply for_each_inv.
  intros [my mi] n w2 Hn Hz Hb. apply elem_of_range in Hn. cbv zeta in Hb.
  apply wrap_step_inv in Hb as (a & c & _ & Lc & _ & Si).
  destruct w2 as [my2 mi2]. simpl in *.
  eapply store_zero_cells; [exact Hz | exact Si |].
  intros _. destruct (Hz n ltac:(lia)) as (v & Lv & Ev). simpl in Lv.
  rewrite Lc in Lv. injection Lv as ->. exact Ev.
Qed.

Lemma cumulate_zero (n_bins : Z) (w w' : scratch) :
  zero_weight_cells n_bins w ->
  cumulate n_bins w = Some w' ->
  zero_weight_cells n_bins w'.
Proof.
  unfold cumulate. apply for_each_inv.
  intros [my mi] n w2 Hn Hz Hb. apply elem_of_range in Hn.
  apply cumulate_step_inv in Hb as (a & a' & c & c' & _ & _ & _ & Lc & Lc' & Si).
  destruct w2 as [my2 mi2]. simpl in *.
  eapply store_zero_cells; [exact Hz | exact Si |].
  intros _.
  destruct (Hz n ltac:(lia)) as (v & Lv & Ev).
  destruct (Hz (n - 1)%Z ltac:(lia)) as (v' & Lv' & Ev'). simpl in Lv, Lv'.
  rewrite Lc in Lv. rewrite Lc' in Lv'. injection Lv as ->. injection Lv' as ->.
  rewrite Ev, Ev'. reflexivity.
Qed.

Lemma fold_period_zero (N : nat) (t y ivar : list Q) (period bin_duration : Q)
    (n_bins oversample : Z) (w w' : scratch) :
  (forall n, (n < N)%nat -> nth n ivar 0 == 0) ->
  (oversample <= n_bins)%Z ->
  fold_period N t y ivar period bin_duration n_bins oversample w = Some w' ->
  zero_weight_cells n_bins w'.
Proof.
  intros Hiv Hos. unfold fold_period.
  destruct (clear_bins n_bins w) as [w1 |] eqn:E1; simpl; [| discriminate].
  destruct (bin_samples _ _ _ _ _ _ w1) as [w2 |] eqn:E2; simpl;
    [| discriminate].
  destruct (wrap_bins _ _ w2) as [w3 |] eqn:E3; simpl; [| discriminate].
  apply cumulate_zero. eapply wrap_bins_zero; [exact Hos | | exact E3].
  eapply bin_samples_zero; [exact Hiv | | exact E2].
  intros i Hi. exists 0. split; [| reflexivity].
  apply (clear_bins_zero n_bins w w1 E1 i Hi).
Qed.

Lemma zero_window_skipped (n_bins n d : Z) (w : scratch) (y_in ivar_in x : Q) :
  zero_weight_cells n_bins w ->
  (0 <= n)%Z -> (0 <= d)%Z -> (n + d <= n_bins)%Z ->
  window w n d = Some (y_in, ivar_in) ->
  skipped ivar_in x = true.
Proof.
  intros Hz Hn Hd Hnd. unfold window.
  destruct (load (mean_y w) (n + d)) as [a |]; simpl; [| discriminate].
  destruct (load (mean_y w) n) as [a' |]; simpl; [| discriminate].
  destruct (Hz (n + d)%Z ltac:(lia)) as (c & -> & Ec).
  destruct (Hz n ltac:(lia)) as (c' & -> & Ec'). simpl.
  intros [= <- <-]. unfold skipped. apply orb_true_iff. left.
  apply Qltb_true. pose proof DBL_EPSILON_pos. lra.
Qed.

Section NoWeight.

Variable sqrt : Q -> Q.
Variable malloc_ok : nat -> bool.
Variable l0 : locals.
Variable N : nat.
Variables t y ivar : list Q.
Variable n_periods : nat.
Variable periods : list Q.
Variable n_durations : nat.
Variable durations : list Q.
Variables oversample obj_flag : Z.

Local Abbreviation run :=
  (run_transit_periodogram sqrt malloc_ok l0 N t y ivar n_periods periods
     n_durations durations oversample obj_flag).
Local Abbreviation valid :=
  (ranges_valid n_periods periods n_durations durations).

(** X9. With valid ranges and [oversample >= 1], a series whose weights
    are all zero (in particular the empty series, [N = 0]) gives a
    successful call with no detection: every period's [best_objective] is
    the sentinel. *)
Theorem weightless_series_detects_nothing (out out' : outputs) (p : nat) :
  valid -> (1 <= oversample)%Z ->
  (forall n, (n < N)%nat -> nth n ivar 0 == 0) ->
  run out = Some (0%Z, out') ->
  (p < n_periods)%nat ->
  (p < length (best_objective out))%nat ->
  best_objective out' !! p = Some NegInfinity.
Proof.
  intros V Hos Hiv Hrun Hp Hlen.
  destruct (run_period sqrt malloc_ok l0 N t y ivar n_periods periods
              n_durations durations oversample obj_flag out out' p Hrun Hp)
    as (w_p & o_p & l_p & o_p' & Hw & Hshape & Hscan & Ha).
  pose proof (n_bins_bounds _ _ _ _ _ p V Hos Hp) as Hnb.
  assert (Hz : zero_weight_cells
                 (n_bins periods n_durations durations oversample p) w_p).
  { unfold scratch_at in Hw. rewrite seq_S, for_each_app in Hw.
    destruct (for_each _ (seq 0 p) _) as [w1 |]; [| discriminate].
    cbn [for_each Nat.add] in Hw.
    destruct (fold_period _ _ _ _ _ _ _ _ w1) as [w2 |] eqn:E; [| discriminate].
    injection Hw as <-.
    eapply fold_period_zero; [exact Hiv | | exact E]. lia. }
  assert (Hlen_p : (p < length (best_objective o_p))%nat)
    by (destruct Hshape as [<- _]; exact Hlen).
  assert (Hb : nth p (best_objective o_p') NegInfinity = NegInfinity).
  { apply (scan_period_sentinel sqrt (sums N y ivar) obj_flag p
             (period periods p)
             (bin_duration n_durations durations oversample) w_p
             (n_bins periods n_durations durations oversample p)
             (durations_index n_durations durations oversample)
             n_durations l0 o_p (l_p, o_p') Hlen_p); [| exact Hscan].
    intros k n y_in ivar_in Hk Hn Hwin. left.
    pose proof (durations_index_ge_1 n_durations durations oversample k Hk).
    eapply zero_window_skipped; [exact Hz | | | | exact Hwin]; lia. }
  destruct (scan_period_frame sqrt malloc_ok l0 N y ivar periods n_durations
              durations oversample obj_flag p w_p o_p l_p o_p' Hscan)
    as [Hshape' _].
  destruct Ha as [Ha _]. rewrite Ha in Hb.
  destruct (nth_lookup_or_length (best_objective out') p NegInfinity)
    as [E | E].
  - rewrite E, Hb. reflexivity.
  - destruct (run_zero _ _ _ _ _ _ _ _ _ _ _ _ _ _ _ Hrun) as [w' Hloop].
    apply (periods_loop sqrt malloc_ok) in Hloop as (_ & [Hl _] & _). lia.
Qed.

End NoWeight.

(** ** What the result does not depend on *)

(** Two loops over the same list whose bodies keep a relation between
    their states end in related states, or fail together. *)
Lemma for_each_rel {A S1 S2 : Type} (R : S1 -> S2 -> Prop)
    (body1 : S1 -> A -> option S1) (body2 : S2 -> A -> option S2)
    (l : list A) (s1 : S1) (s2 : S2) :
  (forall s1 s2 x, x ∈ l -> R s1 s2 ->
     option_Forall2 R (body1 s1 x) (body2 s2 x)) ->
  R s1 s2 ->
  option_Forall2 R (for_each body1 l s1) (for_each body2 l s2).
Proof.
  revert s1 s2. induction l as [| x l IH]; intros s1 s2 Hstep HR; simpl.
  - constructor. exact HR.
  - destruct (Hstep s1 s2 x ltac:(left) HR) as [s1' s2' HR' |];
      [| constructor].
    apply IH; [| exact HR'].
    intros s3 s4 x' Hx'. apply Hstep. right. exact Hx'.
Qed.

Lemma for_each_ext {A S : Type} (body1 body2 : S -> A -> option S)
    (l : list A) (s : S) :
  (forall s x, x ∈ l -> body1 s x = body2 s x) ->
  for_each body1 l s = for_each body2 l s.
Proof.
  revert s. induction l as [| x l IH]; intros s Hext; simpl; [reflexivity |].
  rewrite (Hext s x ltac:(left)). destruct (body2 s x); [| reflexivity].
  apply IH. intros s' x' Hx'. apply Hext. right. exact Hx'.
Qed.

Section Locals.

Variable sqrt : Q -> Q.

(** After the two calls of the evaluator nothing is left of what the
    five cells held before. *)
Lemma dual_call_overwrites (y_in y_out ivar_in ivar_out s2 s1 s0 : Q)
    (obj_flag : Z) (l l' : locals) :
  compute_objective sqrt y_in y_out ivar_in ivar_out s2 s1 s0
    (if (obj_flag =? 0)%Z then 1 else 0)%Z
    (compute_objective sqrt y_in y_out ivar_in ivar_out s2 s1 s0 obj_flag l)
  = compute_objective sqrt y_in y_out ivar_in ivar_out s2 s1 s0
      (if (obj_flag =? 0)%Z then 1 else 0)%Z
      (compute_objective sqrt y_in y_out ivar_in ivar_out s2 s1 s0 obj_flag
         l').
Proof.
  unfold compute_objective. destruct (obj_flag =? 0)%Z; reflexivity.
Qed.

Lemma consider_locals (b : baseline) (obj_flag : Z) (p : nat)
    (period bin_duration : Q) (dur n : Z) (y_in ivar_in : Q)
    (l l' : locals) (o : outputs) :
  snd (consider sqrt b obj_flag p period bin_duration dur n y_in ivar_in
         (l, o))
  = snd (consider sqrt b obj_flag p period bin_duration dur n y_in ivar_in
           (l', o)).
Proof.
  unfold consider. destruct (skipped _ _); [reflexivity |].
  fold (flux_in y_in ivar_in). fold (flux_out b y_in ivar_in). simpl fst.
  rewrite !objective_score. simpl snd.
  destruct (_ && _); [| reflexivity]. simpl.
  rewrite (dual_call_overwrites _ _ _ _ _ _ _ _ l l'). reflexivity.
Qed.

Lemma scan_period_locals (b : baseline) (obj_flag : Z) (p : nat)
    (period bin_duration : Q) (w : scratch) (n_bins : Z)
    (n_durations : nat) (durations_index : list Z) (l0 l0' : locals)
    (o : outputs) :
  option_Forall2 (fun s s' : locals * outputs => snd s = snd s')
    (scan_period sqrt b obj_flag p period bin_duration w n_bins n_durations
       durations_index l0 o)
    (scan_period sqrt b obj_flag p period bin_duration w n_bins n_durations
       durations_index l0' o).
Proof.
  unfold scan_period. apply for_each_rel; [| reflexivity].
  intros s s' k _ Hs. unfold scan_duration. apply for_each_rel; [| exact Hs].
  intros [l1 o1] [l1' o1'] n _ Ho. simpl in Ho. subst o1'.
  unfold scan_candidate.
  destruct (window w n _) as [[y_in ivar_in] |]; simpl; constructor.
  apply consider_locals.
Qed.

(** X10. The indeterminate initial content of the five locals of the
    period loop has no influence on what the call returns. *)
Theorem locals_content_irrelevant (malloc_ok : nat -> bool)
    (l0 l0' : locals) (N : nat) (t y ivar : list Q) (n_periods : nat)
    (periods : list Q) (n_durations : nat) (durations : list Q)
    (oversample obj_flag : Z) (out : outputs) :
  run_transit_periodogram sqrt malloc_ok l0 N t y ivar n_periods periods
    n_durations durations oversample obj_flag out
  = run_transit_periodogram sqrt malloc_ok l0' N t y ivar n_periods periods
      n_durations durations oversample obj_flag out.
Proof.
  unfold run_transit_periodogram.
  destruct (_ <? _); [reflexivity |].
  destruct (_ || _); [reflexivity |].
  destruct (negb (malloc_ok 0%nat)); [reflexivity |].
  destruct (negb (malloc_ok 1%nat)); [reflexivity |].
  destruct (negb (malloc_ok 2%nat)); [reflexivity |].
  f_equal. apply for_each_ext. intros [w o] p _.
  unfold search_period. simpl.
  destruct (fold_period _ _ _ _ _ _ _ _ w) as [w1 |]; simpl; [| reflexivity].
  pose proof
    (scan_period_locals (sums N y ivar) obj_flag p (period periods p)
       (bin_duration n_durations durations oversample) w1
       (n_bins periods n_durations durations oversample p) n_durations
       (durations_index n_durations durations oversample) l0 l0' o) as H.
  unfold n_bins, period in H.
  destruct H as [[l1 o1] [l1' o1'] E |]; [| reflexivity].
  simpl in E. subst o1'. reflexivity.
Qed.

End Locals.

(** *** The content of the work arrays before a period *)

Lemma load_same_cells (n_bins i : Z) (a1 a2 : list Q) :
  same_cells n_bins a1 a2 ->
  option_Forall2 (fun v1 v2 => (0 <= i <= n_bins)%Z -> v1 = v2)
    (load a1 i) (load a2 i).
Proof.
  intros [Hlen Hc]. destruct (Z_lt_le_dec i 0) as [Hneg | Hpos].
  - unfold load. destruct (i <? 0)%Z eqn:E; [constructor | lia].
  - destruct (load a1 i) as [v1 |] eqn:E1, (load a2 i) as [v2 |] eqn:E2.
    + constructor. intros Hi. specialize (Hc i Hi). congruence.
    + exfalso. unfold load in *. destruct (i <? 0)%Z; [discriminate |].
      apply lookup_lt_Some in E1. apply lookup_ge_None in E2. lia.
    + exfalso. unfold load in *. destruct (i <? 0)%Z; [discriminate |].
      apply lookup_lt_Some in E2. apply lookup_ge_None in E1. lia.
    + constructor.
Qed.

Lemma store_same_cells (n_bins i : Z) (a1 a2 : list Q) (v1 v2 : Q) :
  same_cells n_bins a1 a2 ->
  ((0 <= i <= n_bins)%Z -> v1 = v2) ->
  option_Forall2 (same_cells n_bins) (store a1 i v1) (store a2 i v2).
Proof.
  intros [Hlen Hc] Hv.
  destruct (store a1 i v1) as [a1' |] eqn:S1,
           (store a2 i v2) as [a2' |] eqn:S2.
  - constructor. split.
    + unfold store in *.
      destruct (_ && _)%Z in S1; [| discriminate].
      destruct (_ && _)%Z in S2; [| discriminate].
      injection S1 as <-. injection S2 as <-. rewrite !length_insert.
      exact Hlen.
    + intros z Hz. destruct (Z.eq_dec i z) as [-> | Hne].
      * rewrite (load_store_eq _ _ _ _ S1), (load_store_eq _ _ _ _ S2).
        f_equal. apply Hv, Hz.
      * rewrite (load_store_ne _ _ _ _ _ S1 Hne).
        rewrite (load_store_ne _ _ _ _ _ S2 Hne). apply Hc, Hz.
  - exfalso. unfold store in *. rewrite Hlen in S1.
    destruct (_ && _)%Z; discriminate.
  - exfalso. unfold store in *. rewrite Hlen in S1.
    destruct (_ && _)%Z; discriminate.
  - constructor.
Qed.

Lemma same_cells_weaken (a1 a2 : list Q) :
  length a1 = length a2 -> same_cells (-1) a1 a2.
Proof. intros H. split; [exact H | intros i Hi; lia]. Qed.

(** The clearing pass makes the cells [0 .. n_bins] of any two blocks of
    the same size equal. *)
Lemma clear_bins_same (n_bins : Z) (w1 w2 : scratch) :
  same_size w1 w2 ->
  option_Forall2 (same_bins n_bins) (clear_bins n_bins w1)
    (clear_bins n_bins w2).
Proof.
  intros [Hy Hi].
  assert (H : option_Forall2 (same_bins (-1)) (clear_bins n_bins w1)
                (clear_bins n_bins w2)).
  { unfold clear_bins. apply for_each_rel.
    - intros [my1 mi1] [my2 mi2] n _ [Ry Ri]. simpl in *.
      destruct (store_same_cells (-1) n my1 my2 0 0 Ry ltac:(reflexivity))
        as [my1' my2' Ry' |]; simpl; [| constructor].
      destruct (store_same_cells (-1) n mi1 mi2 0 0 Ri ltac:(reflexivity))
        as [mi1' mi2' Ri' |]; simpl; constructor.
      split; assumption.
    - split; apply same_cells_weaken; assumption. }
  destruct (clear_bins n_bins w1) as [w1' |] eqn:E1,
           (clear_bins n_bins w2) as [w2' |] eqn:E2;
    inversion H as [? ? [[Ly _] [Li _]] |]; subst; constructor.
  split; (split; [assumption |]); intros i Hr;
    destruct (clear_bins_zero n_bins w1 w1' E1 i Hr) as [Z1 Z2];
    destruct (clear_bins_zero n_bins w2 w2' E2 i Hr) as [Z3 Z4]; congruence.
Qed.

Lemma bin_samples_same (N : nat) (t y ivar : list Q) (period bin_duration : Q)
    (n_bins : Z) (w1 w2 : scratch) :
  same_bins n_bins w1 w2 ->
  option_Forall2 (same_bins n_bins)
    (bin_samples N t y ivar period bin_duration w1)
    (bin_samples N t y ivar period bin_duration w2).
Proof.
  unfold bin_samples. apply for_each_rel.
  intros [my1 mi1] [my2 mi2] n _ [Ry Ri]. simpl in *.
  set (ind := bin_index (nth n t 0) period bin_duration).
  destruct (load_same_cells n_bins ind my1 my2 Ry) as [a1 a2 Ea |]; simpl;
    [| constructor].
  destruct (store_same_cells n_bins ind my1 my2
              (a1 + nth n y 0 * nth n ivar 0) (a2 + nth n y 0 * nth n ivar 0)
              Ry) as [my1' my2' Ry' |]; simpl; [| | constructor].
  { intros Hr. rewrite (Ea Hr). reflexivity. }
  destruct (load_same_cells n_bins ind mi1 mi2 Ri) as [c1 c2 Ec |]; simpl;
    [| constructor].
  destruct (store_same_cells n_bins ind mi1 mi2
              (c1 + nth n ivar 0) (c2 + nth n ivar 0) Ri)
    as [mi1' mi2' Ri' |]; simpl; [| | constructor].
  { intros Hr. rewrite (Ec Hr). reflexivity. }
  constructor. split; assumption.
Qed.

Lemma wrap_bins_same (n_bins oversample : Z) (w1 w2 : scratch) :
  (oversample <= n_bins)%Z ->
  same_bins n_bins w1 w2 ->
  option_Forall2 (same_bins n_bins)
    (wrap_bins n_bins oversample w1) (wrap_bins n_bins oversample w2).
Proof.
  intros Hos. unfold wrap_bins. apply for_each_rel.
  intros [my1 mi1] [my2 mi2] n Hn [Ry Ri]. apply elem_of_range in Hn.
  simpl in *.
  destruct (load_same_cells n_bins n my1 my2 Ry) as [a1 a2 Ea |]; simpl;
    [| constructor].
  rewrite (Ea ltac:(lia)).
  destruct (store_same_cells n_bins (n_bins - oversample + (n - 1)) my1 my2
              a2 a2 Ry ltac:(reflexivity)) as [my1' my2' Ry' |]; simpl;
    [| constructor].
  destruct (load_same_cells n_bins n mi1 mi2 Ri) as [c1 c2 Ec |]; simpl;
    [| constructor].
  rewrite (Ec ltac:(lia)).
  destruct (store_same_cells n_bins (n_bins - oversample + (n - 1)) mi1 mi2
              c2 c2 Ri ltac:(reflexivity)) as [mi1' mi2' Ri' |]; simpl;
    constructor.
  split; assumption.
Qed.

Lemma cumulate_same (n_bins : Z) (w1 w2 : scratch) :
  same_bins n_bins w1 w2 ->
  option_Forall2 (same_bins n_bins) (cumulate n_bins w1) (cumulate n_bins w2).
Proof.
  unfold cumulate. apply for_each_rel.
  intros [my1 mi1] [my2 mi2] n Hn [Ry Ri]. apply elem_of_range in Hn.
  simpl in *.
  destruct (load_same_cells n_bins n my1 my2 Ry) as [a1 a2 Ea |]; simpl;
    [| constructor].
  destruct (load_same_cells n_bins (n - 1) my1 my2 Ry) as [a1' a2' Ea' |];
    simpl; [| constructor].
  rewrite (Ea ltac:(lia)), (Ea' ltac:(lia)).
  destruct (store_same_cells n_bins n my1 my2 (a2 + a2') (a2 + a2') Ry
              ltac:(reflexivity)) as [my1' my2' Ry' |]; simpl;
    [| constructor].
  destruct (load_same_cells n_bins n mi1 mi2 Ri) as [c1 c2 Ec |]; simpl;
    [| constructor].
  destruct (load_same_cells n_bins (n - 1) mi1 mi2 Ri) as [c1' c2' Ec' |];
    simpl; [| constructor].
  rewrite (Ec ltac:(lia)), (Ec' ltac:(lia)).
  destruct (store_same_cells n_bins n mi1 mi2 (c2 + c2') (c2 + c2') Ri
              ltac:(reflexivity)) as [mi1' mi2' Ri' |]; simpl;
    constructor.
  split; assumption.
Qed.

Lemma option_Forall2_bind {A B : Type} (R : A -> A -> Prop)
    (R' : B -> B -> Prop) (f g : A -> option B) (m1 m2 : option A) :
  option_Forall2 R m1 m2 ->
  (forall x1 x2, R x1 x2 -> option_Forall2 R' (f x1) (g x2)) ->
  option_Forall2 R' (m1 ≫= f) (m2 ≫= g).
Proof. intros [x1 x2 HR |] Hf; simpl; [apply Hf, HR | constructor]. Qed.

Lemma fold_period_same (N : nat) (t y ivar : list Q) (period bin_duration : Q)
    (n_bins oversample : Z) (w1 w2 : scratch) :
  (oversample <= n_bins)%Z ->
  same_size w1 w2 ->
  option_Forall2 (same_bins n_bins)
    (fold_period N t y ivar period bin_duration n_bins oversample w1)
    (fold_period N t y ivar period bin_duration n_bins oversample w2).
Proof.
  intros Hos Hsize. unfold fold_period.
  eapply option_Forall2_bind; [apply clear_bins_same, Hsize |].
  intros w1a w2a Ra.
  eapply option_Forall2_bind; [apply bin_samples_same, Ra |].
  intros w1b w2b Rb.
  eapply option_Forall2_bind; [apply wrap_bins_same; [exact Hos | exact Rb] |].
  intros w1c w2c Rc. apply cumulate_same, Rc.
Qed.

Lemma window_same (n_bins n d : Z) (w1 w2 : scratch) :
  same_bins n_bins w1 w2 ->
  (0 <= n)%Z -> (0 <= d)%Z -> (n + d <= n_bins)%Z ->
  window w1 n d = window w2 n d.
Proof.
  intros [[_ Hy] [_ Hi]] Hn Hd Hnd. unfold window.
  rewrite (Hy (n + d)%Z), (Hy n), (Hi (n + d)%Z), (Hi n) by lia.
  reflexivity.
Qed.

Lemma scan_period_same (sqrt : Q -> Q) (b : baseline) (obj_flag : Z)
    (p : nat) (period bin_duration : Q) (w1 w2 : scratch) (n_bins : Z)
    (n_durations : nat) (durations_index : list Z) (l0 : locals)
    (o : outputs) :
  same_bins n_bins w1 w2 ->
  (forall k, (k < n_durations)%nat -> (0 <= nth k durations_index 0)%Z) ->
  scan_period sqrt b obj_flag p period bin_duration w1 n_bins n_durations
    durations_index l0 o
  = scan_period sqrt b obj_flag p period bin_duration w2 n_bins n_durations
      durations_index l0 o.
Proof.
  intros Hw Hd. unfold scan_period. apply for_each_ext.
  intros s k Hk. apply elem_of_seq in Hk. unfold scan_duration.
  apply for_each_ext. intros s' n Hn. apply elem_of_range in Hn.
  unfold scan_candidate.
  rewrite (window_same n_bins n _ w1 w2 Hw); [reflexivity | lia | | lia].
  apply Hd. lia.
Qed.

Section WorkArrays.

Variable sqrt : Q -> Q.
Variable malloc_ok : nat -> bool.
Variable l0 : locals.
Variable N : nat.
Variables t y ivar : list Q.
Variable n_periods : nat.
Variable periods : list Q.
Variable n_durations : nat.
Variable durations : list Q.
Variables oversample obj_flag : Z.

Local Abbreviation run :=
  (run_transit_periodogram sqrt malloc_ok l0 N t y ivar n_periods periods
     n_durations durations oversample obj_flag).
Local Abbreviation search :=
  (search_period sqrt N t y ivar periods (sums N y ivar) obj_flag oversample
     (bin_duration n_durations durations oversample) n_durations
     (durations_index n_durations durations oversample) l0).
Local Abbreviation valid :=
  (ranges_valid n_periods periods n_durations durations).

Lemma periods_same (w1 w2 : scratch) (out : outputs) :
  valid -> (1 <= oversample)%Z -> same_size w1 w2 ->
  option_Forall2
    (fun s1 s2 : scratch * outputs =>
       same_size (fst s1) (fst s2) /\ snd s1 = snd s2)
    (for_each search (seq 0 n_periods) (w1, out))
    (for_each search (seq 0 n_periods) (w2, out)).
Proof.
  intros V Hos Hsize. apply for_each_rel; [| split; [exact Hsize | reflexivity]].
  intros [wa oa] [wb ob] p Hp [Hs Ho]. simpl in Hs, Ho. subst ob.
  apply elem_of_seq in Hp.
  pose proof (n_bins_bounds _ _ _ _ _ p V Hos ltac:(lia)) as Hnb.
  unfold search_period. simpl.
  fold (period periods p).
  fold (n_bins periods n_durations durations oversample p).
  eapply option_Forall2_bind.
  - apply fold_period_same; [lia | exact Hs].
  - intros wa' wb' Hbins.
    rewrite (scan_period_same sqrt (sums N y ivar) obj_flag p
               (period periods p)
               (bin_duration n_durations durations oversample) wa' wb'
               (n_bins periods n_durations durations oversample p)
               n_durations
               (durations_index n_durations durations oversample) l0 oa
               Hbins).
    + destruct (scan_period _ _ _ _ _ _ wb' _ _ _ _ _) as [[l' o'] |]; simpl;
        constructor.
      simpl. split; [| reflexivity].
      destruct Hbins as [[Ly _] [Li _]]. split; assumption.
    + intros k Hk.
      pose proof (durations_index_ge_1 n_durations durations oversample k Hk).
      lia.
Qed.

(** X11. The work arrays come from [malloc] and the call never
    initialises them as a whole; but every period clears the bins it
    reads.  With valid ranges, [oversample >= 1] and successful
    allocations, the call returns what the loop over the periods gives
    when it starts from work arrays of the allocated size with any
    content whatever. *)
Theorem work_arrays_content_irrelevant (w : scratch) (out : outputs) :
  valid -> (1 <= oversample)%Z -> allocations_succeed malloc_ok ->
  sized (Z.to_nat (blocksize n_periods periods n_durations durations
                     oversample)) w ->
  run out =
  ('(_, o) ← for_each search (seq 0 n_periods) (w, out); Some (0%Z, o)).
Proof.
  intros V Hos (A0 & A1 & A2) [Sy Si].
  unfold run_transit_periodogram. destruct V as [V1 V2] eqn:EV.
  rewrite V1, V2, A0, A1, A2. simpl.
  destruct (periods_same
              (work0 n_periods periods n_durations durations oversample)
              w out (conj V1 V2) Hos) as [[w1 o1] [w2 o2] [_ E] |];
    [| simpl in *; subst; reflexivity | reflexivity].
  split; simpl; rewrite repeat_length; congruence.
Qed.

End WorkArrays.

(** ** The objective and the grids *)


(** X13. For a grid of at least one element, the two linear scans return
    elements of the grid, the first below and the second above every
    element. *)
Theorem grid_scans_find_extrema (n : nat) (xs : list Q) :
  (0 < n)%nat ->
  is_min n xs (grid_min n xs) /\ is_max n xs (grid_max n xs) /\
  grid_min n xs <= grid_max n xs.
Proof.
  intros Hn. pose proof (grid_min_is_min n xs Hn) as Hmin.
  pose proof (grid_max_is_max n xs Hn) as Hmax.
  split; [exact Hmin |]. split; [exact Hmax |].
  destruct Hmin as [_ Hlo]. destruct Hmax as [_ Hhi].
  specialize (Hlo 0%nat Hn). specialize (Hhi 0%nat Hn). lra.
Qed.

(** ** The histogram holds every sample once *)

Lemma bins_total_ext (a a' : list Q) (n d : nat) :
  (forall j, (n < j <= n + d)%nat -> nth j a 0 = nth j a' 0) ->
  bins_total a n d = bins_total a' n d.
Proof.
  induction d as [| d IH]; intros H; simpl; [reflexivity |].
  rewrite IH by (intros j Hj; apply H; lia).
  rewrite (H (n + S d)%nat) by lia. reflexivity.
Qed.

Lemma bins_total_insert (a : list Q) (n d i : nat) (x : Q) :
  (n < i <= n + d)%nat -> (i < length a)%nat ->
  bins_total (<[i := x]> a) n d == bins_total a n d - nth i a 0 + x.
Proof.
  induction d as [| d IH]; intros Hi Hlen; [lia |]. simpl.
  destruct (decide (i = n + S d)%nat) as [-> | Hne].
  - rewrite nth_insert_eq by exact Hlen.
    rewrite (bins_total_ext (<[(n + S d)%nat := x]> a) a)
      by (intros j Hj; apply nth_insert_ne; lia).
    ring.
  - rewrite IH by lia. rewrite nth_insert_ne by lia. ring.
Qed.

Lemma store_insert (a a' : list Q) (i : Z) (v : Q) :
  store a i v = Some a' ->
  a' = <[Z.to_nat i := v]> a /\ (0 <= i < Z.of_nat (length a))%Z.
Proof.
  unfold store.
  destruct (0 <=? i)%Z eqn:E1; [| discriminate].
  destruct (i <? Z.of_nat (length a))%Z eqn:E2; [| discriminate].
  simpl. intros [= <-]. split; [reflexivity | lia].
Qed.

Lemma bin_step_inv (ind : Z) (vy vi : Q) (w w' : scratch) :
  (a ← load (mean_y w) ind;
   my ← store (mean_y w) ind (a + vy);
   c ← load (mean_ivar w) ind;
   mi ← store (mean_ivar w) ind (c + vi);
   Some (Scratch my mi)) = Some w' ->
  exists a c,
    load (mean_y w) ind = Some a /\ load (mean_ivar w) ind = Some c /\
    store (mean_y w) ind (a + vy) = Some (mean_y w') /\
    store (mean_ivar w) ind (c + vi) = Some (mean_ivar w').
Proof.
  destruct (load (mean_y w) ind) as [a |]; simpl; [| discriminate].
  destruct (store (mean_y w) ind _) as [my |] eqn:Sy; simpl; [| discriminate].
  destruct (load (mean_ivar w) ind) as [c |]; simpl; [| discriminate].
  destruct (store (mean_ivar w) ind _) as [mi |] eqn:Si; simpl;
    [| discriminate].
  intros [= <-]. exists a, c. simpl. auto.
Qed.

Lemma store_adds_to_total (a a' : list Q) (ind : Z) (v x : Q) (m : nat) :
  (1 <= ind <= Z.of_nat m)%Z ->
  load a ind = Some v -> store a ind (v + x) = Some a' ->
  bins_total a' 0 m == bins_total a 0 m + x.
Proof.
  intros Hind Hl Hs. apply store_insert in Hs as [-> Hlen].
  apply load_nth in Hl as [_ ->].
  rewrite bins_total_insert by lia. ring.
Qed.

Lemma bin_samples_totals (N : nat) (t y ivar : list Q) (period bin_duration : Q)
    (m : nat) (w w' : scratch) :
  (forall n, (1 <= bin_index (nth n t 0%Q) period bin_duration
                <= Z.of_nat m)%Z) ->
  bin_samples N t y ivar period bin_duration w = Some w' ->
  bins_total (mean_y w') 0 m
    == bins_total (mean_y w) 0 m + sum_y (accumulate N y ivar) /\
  bins_total (mean_ivar w') 0 m
    == bins_total (mean_ivar w) 0 m + sum_ivar (accumulate N y ivar).
Proof.
  intros Hind. unfold bin_samples, accumulate. revert w'.
  induction N as [| N IH]; intros w'.
  - simpl. intros [= <-]. split; ring.
  - rewrite seq_S, for_each_app, fold_left_app.
    destruct (for_each _ (seq 0 N) w) as [w1 |] eqn:E1; [| discriminate].
    destruct (IH w1 eq_refl) as [Iy Ii].
    cbn [for_each fold_left Nat.add].
    destruct (_ ≫= _) as [w2 |] eqn:E2; [| discriminate].
    intros [= <-]. cbv zeta in E2.
    apply bin_step_inv in E2 as (a & c & La & Lc & Sy & Si).
    rewrite (store_adds_to_total _ _ _ _ _ m (Hind N) La Sy).
    rewrite (store_adds_to_total _ _ _ _ _ m (Hind N) Lc Si).
    simpl. rewrite Iy, Ii. split; ring.
Qed.

Lemma bins_total_zero (a : list Q) (n d : nat) :
  (forall j, (n < j <= n + d)%nat -> nth j a 0 = 0) ->
  bins_total a n d == 0.
Proof.
  induction d as [| d IH]; intros H; simpl; [reflexivity |].
  rewrite IH by (intros j Hj; apply H; lia).
  rewrite (H (n + S d)%nat) by lia. ring.
Qed.


(** ** The further properties at concrete inputs *)

Section MoreExamples.

Import Sample.

Local Abbreviation run3 flag :=
  (run_transit_periodogram Sample.sqrt malloc_ok l0 3 t3 y3 ivar3
     1 periods3 1 durations3 1 flag).
Local Abbreviation b3 := (sums 3 y3 ivar3).

Lemma allocation_failure_status_witness :
  run_transit_periodogram Sample.sqrt (fun i => negb (i =? 1)%nat) l0 3 t3 y3
    ivar3 1 periods3 1 durations3 1 1 (out0 1)
  = Some ((-2)%Z, out0 1).
Proof.
  apply (proj1 (proj2 (allocation_failure_status Sample.sqrt
                         (fun i => negb (i =? 1)%nat) l0 3 t3 y3 ivar3
                         1 periods3 1 durations3 1 1 (out0 1)
                         (conj eq_refl eq_refl)))).
  split; reflexivity.
Defined.

Lemma outputs_frame_witness :
  exists out',
    run3 1%Z (out0 2) = Some (0%Z, out') /\
    same_shape (out0 2) out' /\ agree_at 1 (out0 2) out'.
Proof.
  eexists. split; [vm_compute; reflexivity |].
  destruct (outputs_frame Sample.sqrt malloc_ok l0 3 t3 y3 ivar3
              1 periods3 1 durations3 1 1 (out0 2) 0%Z _
              ltac:(vm_compute; reflexivity)) as [Hs Ha].
  split; [exact Hs | apply Ha; lia].
Defined.






Lemma wrap_copies_bins_witness :
  load [0; 1; 2; 4; 1; 2; 0] 4 = load [0; 1; 2; 4; 8; 0; 0] 1 /\
  load [0; 1; 2; 4; 1; 2; 0] 6 = load [0; 1; 2; 4; 8; 0; 0] 6.
Proof.
  pose proof (wrap_copies_bins 6 2
                (Scratch [0; 1; 2; 4; 8; 0; 0] [0; 1; 1; 1; 1; 0; 0])
                (Scratch [0; 1; 2; 4; 1; 2; 0] [0; 1; 1; 1; 1; 1; 0])
                ltac:(lia) ltac:(lia) ltac:(vm_compute; reflexivity)) as H.
  split; [exact (proj1 (H 4%Z)) | exact (proj1 (H 6%Z))].
Defined.

Lemma weightless_series_detects_nothing_witness :
  exists out',
    run_transit_periodogram Sample.sqrt malloc_ok l0 0 [] [] []
      1 periods3 1 durations3 1 1 (out0 1) = Some (0%Z, out') /\
    best_objective out' !! 0%nat = Some NegInfinity.
Proof.
  eexists. split; [vm_compute; reflexivity |].
  apply (weightless_series_detects_nothing Sample.sqrt malloc_ok l0 0 [] [] []
           1 periods3 1 durations3 1 1 (out0 1) _ 0).
  - split; reflexivity.
  - lia.
  - intros n Hn. lia.
  - vm_compute. reflexivity.
  - lia.
  - simpl. lia.
Defined.

Lemma work_arrays_content_irrelevant_witness :
  run3 1%Z (out0 1) =
  ('(_, o) ← for_each
               (search_period Sample.sqrt 3 t3 y3 ivar3 periods3 b3 1 1
                  (bin_duration 1 durations3 1) 1
                  (durations_index 1 durations3 1) l0)
               (seq 0 1) (Scratch (repeat 5 5) (repeat 7 5), out0 1);
   Some (0%Z, o)).
Proof.
  apply (work_arrays_content_irrelevant Sample.sqrt malloc_ok l0 3 t3 y3 ivar3
           1 periods3 1 durations3 1 1
           (Scratch (repeat 5 5) (repeat 7 5)) (out0 1)).
  - split; reflexivity.
  - lia.
  - repeat split.
  - split; reflexivity.
Defined.


Lemma grid_scans_find_extrema_witness :
  grid_min 3 [3; 1; 2] <= grid_max 3 [3; 1; 2].
Proof.
  apply (grid_scans_find_extrema 3 [3; 1; 2]). lia.
Defined.


End MoreExamples.
